(** * The log-density evaluators of the ParaMonte tutorial notebook

    Source: Python/Jupyter/working_with_logarithm_of_objective_function.ipynb.

    The notebook defines two objective functions for a multivariate normal
    distribution: [getLogFunc_bad], which takes the logarithm of the density
    returned by scipy, and [getLogFunc], which evaluates the logarithm of the
    density directly from a precomputed inverse covariance matrix [INVCOV]
    and a precomputed coefficient [MVN_COEF].

    The development has three layers.
    - The numpy operations the two functions call ([MEAN - point] with
      broadcasting, [np.matmul], [np.dot]) and [getLogFunc] itself are
      written once, over an arbitrary number type with a subtraction, a
      multiplication, an addition and the constant 0.5.
    - The module-level statements of the notebook cell run in a small
      state-and-exception monad over the notebook's global namespace.
    - The number type is instantiated twice: with the real numbers (exact
      arithmetic, where [np.linalg.inv] and [np.linalg.det] are the matrix
      inverse and determinant of MathComp) and with IEEE 754 binary64
      (Python's [float]), Rocq's primitive floats. Statements about every
      binary64 input are proved from the Standard Library's specification
      of the primitive operations ([FloatAxioms]); values at given inputs
      are computed. *)

From HB Require Import structures.
From Stdlib Require Import Reals Lra ClassicalEpsilon FunctionalExtensionality.
From Stdlib Require Import ZArith Lia.
From Stdlib Require PrimFloat Floats.
From mathcomp Require Import ssreflect ssrfun ssrbool eqtype ssrnat seq choice.
From mathcomp Require Import fintype bigop ssralg matrix.

Set Implicit Arguments.
Unset Strict Implicit.
Unset Printing Implicit Defensive.

Delimit Scope R_scope with Re.

(** ** The real numbers as a MathComp field

    Determinants and inverses of real matrices come from MathComp's
    [matrix] library, which asks for a [fieldType]. *)

Module RealField.

Definition eqr (x y : R) : bool := if Req_dec_T x y then true else false.

Lemma eqrP : Equality.axiom eqr.
Proof. by move=> x y; rewrite /eqr; case: (Req_dec_T x y) => h; constructor. Qed.

HB.instance Definition _ := hasDecEq.Build R eqrP.

Definition pick_real (P : pred R) (n : nat) : option R :=
  match excluded_middle_informative (exists x, P x) with
  | left ex => Some (proj1_sig (constructive_indefinite_description _ ex))
  | right _ => None
  end.

Lemma pick_real_correct (P : pred R) n x : pick_real P n = Some x -> P x.
Proof.
rewrite /pick_real; case: excluded_middle_informative => // ex [<-].
exact: (proj2_sig (constructive_indefinite_description _ ex)).
Qed.

Lemma pick_real_complete (P : pred R) :
  (exists x, P x) -> exists n, pick_real P n.
Proof.
by move=> ex; exists 0%N; rewrite /pick_real; case: excluded_middle_informative.
Qed.

Lemma pick_real_ext (P Q : pred R) : P =1 Q -> pick_real P =1 pick_real Q.
Proof. by move=> /functional_extensionality -> n. Qed.

HB.instance Definition _ :=
  hasChoice.Build R pick_real_correct pick_real_complete pick_real_ext.

Fact RplusA : associative Rplus.
Proof. by move=> x y z; rewrite Rplus_assoc. Qed.

HB.instance Definition _ :=
  GRing.isZmodule.Build R RplusA Rplus_comm Rplus_0_l Rplus_opp_l.

Fact RmultA : associative Rmult.
Proof. by move=> x y z; rewrite Rmult_assoc. Qed.

Fact R1_neq_0 : R1 != R0.
Proof. by apply/eqP; exact: R1_neq_R0. Qed.

HB.instance Definition _ :=
  GRing.Zmodule_isComNzRing.Build R RmultA Rmult_comm Rmult_1_l
    Rmult_plus_distr_r R1_neq_0.

Fact RinvK (x : R) : x != 0%R -> Rmult (Rinv x) x = 1%R.
Proof. by move=> /eqP x0; rewrite Rinv_l. Qed.

HB.instance Definition _ := GRing.ComNzRing_isField.Build R RinvK Rinv_0.

End RealField.
Import RealField.

(** ** Python results: a value or a raised exception *)

Inductive exn : Type :=
  | NameError     (* a global name is not bound *)
  | ValueError    (* numpy: operand shapes do not match *)
  | LinAlgError.  (* numpy.linalg: not square, or singular *)

Inductive result (A : Type) : Type :=
  | Ok (a : A)
  | Raise (e : exn).

Arguments Ok {A} a.
Arguments Raise {A} e.

Definition rbind {A B : Type} (r : result A) (k : A -> result B) : result B :=
  match r with
  | Ok a => k a
  | Raise e => Raise e
  end.

Notation "'do' x <-- r ; k" := (rbind r (fun x => k))
  (at level 200, x name, r at level 100, k at level 200,
   format "'[v' 'do'  x  <--  r ; '/' k ']'").

(** ** The number type

    The operations the evaluator needs from its scalars. *)

Record arith (T : Type) : Type := Arith {
  zero : T;
  one : T;
  half : T;                  (* the literal 0.5 *)
  add : T -> T -> T;
  sub : T -> T -> T;
  mul : T -> T -> T
}.

(** Exact arithmetic. *)
Definition exact : arith R :=
  {| zero := 0%Re; one := 1%Re; half := (/ 2)%Re;
     add := Rplus; sub := Rminus; mul := Rmult |}.

(** IEEE 754 binary64, Python's float. *)
Module Float64.
Import PrimFloat.

Definition binary64 : arith float :=
  Arith 0%float 1%float 0.5%float PrimFloat.add PrimFloat.sub PrimFloat.mul.

End Float64.

(** ** numpy: one- and two-dimensional arrays

    A one-dimensional array is the list of its entries; a two-dimensional
    array is the list of its rows. *)

Section Numpy.

Variable T : Type.
Variable num : arith T.

Definition vector := seq T.
Definition matrix := seq (seq T).

(** Shape (n, m): n rows, each of m entries. *)
Definition has_shape (n m : nat) (A : matrix) : bool :=
  (size A == n) && all (fun row => size row == m) A.

(** [np.zeros(n)] and [np.eye(n)]. *)
Definition np_zeros (n : nat) : vector := nseq n (zero num).

Definition np_eye (n : nat) : matrix :=
  [seq [seq if i == j then one num else zero num | j <- iota 0 n]
     | i <- iota 0 n].

(** [a - b] on one-dimensional arrays, with numpy's broadcasting: equal
    lengths subtract entry by entry, a length-1 operand is stretched to
    the other's length, any other pair of lengths raises. *)
Definition np_sub (a b : vector) : result vector :=
  if size a == size b then Ok [seq sub num xy.1 xy.2 | xy <- zip a b]
  else if size b == 1 then Ok [seq sub num x (head (zero num) b) | x <- a]
  else if size a == 1 then Ok [seq sub num (head (zero num) a) y | y <- b]
  else Raise ValueError.

(** The sum of products accumulated by [np.dot], here left to right. numpy
    leaves the order of the additions to the BLAS it is linked with; the
    binary64 statements below are at points where all the partial sums are
    exact or infinite, so every order gives the same result. *)
Definition dot_acc (a b : vector) : T :=
  foldl (fun acc xy => add num acc (mul num xy.1 xy.2)) (zero num) (zip a b).

(** [np.dot(a, b)] on one-dimensional arrays. *)
Definition np_dot (a b : vector) : result T :=
  if size a == size b then Ok (dot_acc a b) else Raise ValueError.

(** [np.matmul(A, v)] of a two-dimensional by a one-dimensional array: the
    number of columns of [A] has to be the length of [v] (the empty list of
    rows stands for the 0 by 0 array). *)
Definition np_matmul (A : matrix) (v : vector) : result vector :=
  if all (fun row => size row == size v) A && ((0 < size A) || (size v == 0))
  then Ok [seq dot_acc row v | row <- A]
  else Raise ValueError.

End Numpy.

(** ** The notebook's global namespace

    The names the second code cell binds. A module-level statement and a
    call of [getLogFunc] both run against this namespace: a Python function
    looks its globals up when it is called. *)

Section Namespace.

Variable T : Type.

Record namespace : Type := Namespace {
  NDIM : option nat;
  MEAN : option (vector T);
  COVMAT : option (matrix T);
  INVCOV : option (matrix T);
  MVN_COEF : option T;
  getLogFunc_def : bool   (* [def getLogFunc] has been executed *)
}.

(** The namespace of a fresh kernel. *)
Definition fresh : namespace := Namespace None None None None None false.

(** A computation: it returns or raises, and leaves a namespace behind.
    A raised exception ends the computation and keeps the bindings made
    so far. *)
Definition py (A : Type) : Type := namespace -> result A * namespace.

Definition ret {A : Type} (a : A) : py A := fun g => (Ok a, g).

Definition bind {A B : Type} (m : py A) (k : A -> py B) : py B :=
  fun g => match m g with
           | (Ok a, g') => k a g'
           | (Raise e, g') => (Raise e, g')
           end.

Definition of_result {A : Type} (r : result A) : py A := fun g => (r, g).

(** Reading a global name. *)
Definition load {A : Type} (name : namespace -> option A) : py A :=
  fun g => match name g with
           | Some a => (Ok a, g)
           | None => (Raise NameError, g)
           end.

(** Binding a global name. *)
Definition store_NDIM (n : nat) : py unit :=
  fun g => (Ok tt, Namespace (Some n) (MEAN g) (COVMAT g) (INVCOV g)
                             (MVN_COEF g) (getLogFunc_def g)).

Definition store_MEAN (v : vector T) : py unit :=
  fun g => (Ok tt, Namespace (NDIM g) (Some v) (COVMAT g) (INVCOV g)
                             (MVN_COEF g) (getLogFunc_def g)).

Definition store_COVMAT (A : matrix T) : py unit :=
  fun g => (Ok tt, Namespace (NDIM g) (MEAN g) (Some A) (INVCOV g)
                             (MVN_COEF g) (getLogFunc_def g)).

Definition store_INVCOV (A : matrix T) : py unit :=
  fun g => (Ok tt, Namespace (NDIM g) (MEAN g) (COVMAT g) (Some A)
                             (MVN_COEF g) (getLogFunc_def g)).

Definition store_MVN_COEF (c : T) : py unit :=
  fun g => (Ok tt, Namespace (NDIM g) (MEAN g) (COVMAT g) (INVCOV g)
                             (Some c) (getLogFunc_def g)).

Definition def_getLogFunc : py unit :=
  fun g => (Ok tt, Namespace (NDIM g) (MEAN g) (COVMAT g) (INVCOV g)
                             (MVN_COEF g) true).

End Namespace.

Arguments fresh {T}.
Arguments ret {T A} a.
Arguments bind {T A B} m k.
Arguments of_result {T A} r.
Arguments load {T A} name.
Arguments def_getLogFunc {T}.

Notation "x <~ m ;; k" := (bind m (fun x => k))
  (at level 61, m at next level, right associativity).
Notation "m ;; k" := (bind m (fun _ => k))
  (at level 61, right associativity).

(** ** The stable evaluator

<<
def getLogFunc(point):
    normedPoint = MEAN - point
    return MVN_COEF - 0.5 * ( np.dot( normedPoint, np.matmul(INVCOV,normedPoint) ) )
>>
*)

Section Evaluator.

Variable T : Type.
Variable num : arith T.

Definition getLogFunc (point : vector T) : py T T :=
  mean <~ load (@MEAN T) ;;
  normedPoint <~ of_result (np_sub num mean point) ;;
  coef <~ load (@MVN_COEF T) ;;
  invcov <~ load (@INVCOV T) ;;
  t <~ of_result (np_matmul num invcov normedPoint) ;;
  q <~ of_result (np_dot num normedPoint t) ;;
  ret (sub num coef (mul num (half num) q)).

(** Calling the function through its global name. *)
Definition call_getLogFunc (point : vector T) : py T T :=
  fun g => if getLogFunc_def g then getLogFunc point g
           else (Raise NameError, g).

(** The value a call computes from the three globals it reads, with the
    namespace left out. *)
Definition log_density (mean : vector T) (invcov : matrix T) (coef : T)
    (point : vector T) : result T :=
  do normedPoint <-- np_sub num mean point;
  do t <-- np_matmul num invcov normedPoint;
  do q <-- np_dot num normedPoint t;
  Ok (sub num coef (mul num (half num) q)).

End Evaluator.

(** ** Exact arithmetic: numpy.linalg, the notebook cell, the naive path *)

Section ExactLinalg.

(** The n by n real matrix read off a list of rows, and back. *)
Definition mx_of_rows (n : nat) (A : matrix R) : 'M[R]_n :=
  (\matrix_(i, j) nth 0%Re (nth [::] A i) j)%R.

Definition rows_of_mx (n : nat) (M : 'M[R]_n) : matrix R :=
  [seq [seq M i j | j <- enum 'I_n] | i <- enum 'I_n].

Definition is_square (A : matrix R) : bool := has_shape (size A) (size A) A.

(** [np.linalg.det(A)] in exact arithmetic: the determinant; numpy raises
    [LinAlgError] when the array is not square. *)
Definition linalg_det (A : matrix R) : result R :=
  if is_square A then Ok (\det (mx_of_rows (size A) A))%R
  else Raise LinAlgError.

(** [np.linalg.inv(A)] in exact arithmetic: the inverse matrix, and
    [LinAlgError] when the array is not square or its determinant is zero.
    This is numpy's documented contract. numpy itself factors the matrix in
    binary64 and raises on a pivot that is exactly zero, as on the
    all-zeros matrix; a matrix that is singular only in exact arithmetic
    can pass that test. Statements that go through this definition are
    statements in exact arithmetic. *)
Definition linalg_inv (A : matrix R) : result (matrix R) :=
  if is_square A then
    if (\det (mx_of_rows (size A) A) == 0)%R then Raise LinAlgError
    else Ok (rows_of_mx (invmx (mx_of_rows (size A) A)))
  else Raise LinAlgError.

End ExactLinalg.

Section ExactCell.

Local Open Scope R_scope.

(** The second code cell, with the dimension, the mean and the covariance
    matrix it assigns as parameters:
<<
NDIM = ...
MEAN = ...
COVMAT = ...
INVCOV = np.linalg.inv(COVMAT)
MVN_COEF = NDIM * np.log( 1. / np.sqrt(2.*np.pi) ) + np.log( np.sqrt(np.linalg.det(INVCOV)) )
def getLogFunc(point): ...
>>
    [np.log] and [np.sqrt] are the real logarithm and square root; they
    mean what numpy computes on positive arguments. *)
Definition cell (ndim : nat) (mean : vector R) (cov : matrix R) : py R unit :=
  store_NDIM ndim ;;
  store_MEAN mean ;;
  store_COVMAT cov ;;
  covmat <~ load (@COVMAT R) ;;
  inv <~ of_result (linalg_inv covmat) ;;
  store_INVCOV inv ;;
  n <~ load (@NDIM R) ;;
  invcov <~ load (@INVCOV R) ;;
  d <~ of_result (linalg_det invcov) ;;
  store_MVN_COEF (INR n * ln (1 / sqrt (2 * PI)) + ln (sqrt d)) ;;
  def_getLogFunc.

(** The cell as the notebook has it: [NDIM = 4], [MEAN = np.zeros(NDIM)],
    [COVMAT = np.eye(NDIM)]. *)
Definition source_cell : py R unit :=
  cell 4 (np_zeros exact 4) (np_eye exact 4).

(** The namespace the notebook's cell leaves in a fresh kernel. *)
Definition source_namespace : namespace R := (source_cell fresh).2.

(** The first code cell:
<<
mvn = multivariate_normal(mean = np.zeros(4), cov = np.eye(4))
def getLogFunc_bad(point): return np.log(mvn.pdf(point))
>>
    [mvn] is a frozen scipy distribution. Its [pdf] is scipy's; it is taken
    here to be the density the notebook writes out for it,
    (2 pi)^(-k/2) |Sigma|^(-1/2) exp(-1/2 (x - mu)^T Sigma^(-1) (x - mu)),
    with the inverse and the determinant computed at every call. *)
Record frozen_mvn : Type := Frozen {
  mvn_mean : vector R;
  mvn_cov : matrix R
}.

Definition mvn_pdf (d : frozen_mvn) (x : vector R) : result R :=
  do icov <-- linalg_inv (mvn_cov d);
  do dt <-- linalg_det (mvn_cov d);
  do dx <-- np_sub exact x (mvn_mean d);
  do t <-- np_matmul exact icov dx;
  do q <-- np_dot exact dx t;
  Ok (Rpower (2 * PI) (- (INR (size (mvn_mean d)) / 2))
      * Rpower dt (- / 2) * exp (- / 2 * q)).

Definition getLogFunc_bad (mvn : frozen_mvn) (point : vector R) : result R :=
  do p <-- mvn_pdf mvn point;
  Ok (ln p).

Definition source_mvn : frozen_mvn :=
  Frozen (np_zeros exact 4) (np_eye exact 4).

End ExactCell.

(** The namespace left by the cell with [MEAN = np.zeros(n)] and
    [COVMAT = np.eye(n)]; the notebook has n = 4. *)
Definition unit_normal_namespace (n : nat) : namespace R :=
  (cell n (np_zeros exact n) (np_eye exact n) fresh).2.

(** ** The quantities the evaluator is specified by *)

Section Specification.

Local Open Scope ring_scope.

(** [delta = mean - point], entry by entry, as a column. *)
Definition delta (n : nat) (mean point : vector R) : 'cV[R]_n :=
  \col_i (nth 0 mean i - nth 0 point i).

(** [quadraticForm = delta^T . inverseCovariance . delta]. *)
Definition quadraticForm (n : nat) (mean : vector R) (invcov : matrix R)
    (point : vector R) : R :=
  ((delta n mean point)^T *m mx_of_rows n invcov *m delta n mean point) 0 0.

(** The coefficient as the cell's expression computes it. *)
Definition source_coef (ndim : nat) (invcov : 'M[R]_ndim) : R :=
  (INR ndim * ln (1 / sqrt (2 * PI)) + ln (sqrt (\det invcov)%R))%Re.

End Specification.

(** The point at parameter t on the line through the mean and a point:
    [mean + t * (point - mean)], entry by entry. It is the mean at t = 0,
    the point at t = 1 and the mirror image of the point at t = -1. *)
Definition along (mean point : vector R) (t : R) : vector R :=
  [seq (mp.1 + t * (mp.2 - mp.1))%Re | mp <- zip mean point].

(** ** Inputs the statements below are tried on *)

Section Inputs.

Local Open Scope R_scope.

(** A two-dimensional namespace to run the evaluator on. *)
Definition small_namespace : namespace R :=
  Namespace (Some 2%N) (Some [:: 1; 2]) (Some [:: [:: 1; 0]; [:: 0; 1]])
    (Some [:: [:: 2; 0]; [:: 0; 3]]) (Some 5) true.

(** The all-zeros covariance matrix. *)
Definition zero_matrix (n : nat) : matrix R := nseq n (np_zeros exact n).

(** The point of the notebook's fault-tolerance test, [NDIM*[10000]]. *)
Definition far_point : vector R := nseq 4 10000.

(** A namespace whose [MEAN] has length 3 while [INVCOV] is 2 by 2. *)
Definition mismatched_namespace : namespace R :=
  Namespace (Some 2%N) (Some [:: 1; 2; 3]) (Some [:: [:: 1; 0]; [:: 0; 1]])
    (Some [:: [:: 2; 0]; [:: 0; 3]]) (Some 5) true.

End Inputs.

(** ** Binary64: the notebook's configuration

    Rocq's primitive floats have no logarithm, so the coefficient is given:
    it is the binary64 value of [4 * log(1/sqrt(2 pi)) + log(sqrt(1.0))],
    the one the notebook's recorded output -200000003.67575413 at
    [NDIM*[10000]] is computed from. The inverse of the identity matrix is
    the identity matrix. *)

Module Float64Source.
Import PrimFloat.
Import Float64.

Definition source_namespace64 : namespace float :=
  Namespace (Some 4) (Some (np_zeros binary64 4)) (Some (np_eye binary64 4))
    (Some (np_eye binary64 4)) (Some (-3.6757541328186907)%float) true.

(** [NDIM*[10000]]. *)
Definition far_point64 : vector float := nseq 4 10000%float.


(** A point off the mean whose squared distance to it is below half an ulp
    of [MVN_COEF]. *)
Definition near_point64 : vector float := [:: 1e-9; 0; 0; 0]%float.

(** A point off the mean whose squared distance to it underflows to 0. *)
Definition tiny_point64 : vector float := [:: 1e-200; 0; 0; 0]%float.

End Float64Source.

(** ** Binary64: magnitudes and signs

    The Standard Library specifies the primitive float operations on
    [spec_float], a float as its sign, mantissa and exponent
    ([FloatAxioms]: [mul_spec], [add_spec], [sub_spec], [leb_spec]). The
    classes below are read off that form. *)

Section Binary64Classes.

Import SpecFloat FloatOps.
Local Open Scope Z_scope.

(** Zero, or finite and of magnitude below [2^k]: a mantissa of d bits
    with exponent e is a number of [[2^(d+e-1), 2^(d+e))]. *)
Definition sf_below (k : Z) (f : spec_float) : bool :=
  match f with
  | S754_zero _ => true
  | S754_finite _ m e => Zpos (digits2_pos m) + e <=? k
  | _ => false
  end.

(** Zero, or of sign [s], finite or infinite. *)
Definition sf_signed (s : bool) (f : spec_float) : bool :=
  match f with
  | S754_zero _ => true
  | S754_finite s' _ _ | S754_infinity s' => Bool.eqb s s'
  | S754_nan => false
  end.


(** Zero or finite: neither NaN nor infinite. *)
Definition sf_fin (f : spec_float) : bool :=
  match f with
  | S754_zero _ | S754_finite _ _ _ => true
  | _ => false
  end.

Definition sf_zero (f : spec_float) : bool :=
  if f is S754_zero _ then true else false.

(** What [1 * x] and its sums with zeros are for a finite [x]: zero when
    [x] is zero, and zero or of the sign of [x] otherwise. *)
Definition sf_like (x t : spec_float) : bool :=
  match x with
  | S754_zero _ => sf_zero t
  | S754_finite s _ _ => sf_signed s t
  | _ => false
  end.

(** A binary64 number that is finite and below [2^k] in magnitude. *)
Definition below (k : Z) (x : PrimFloat.float) : bool :=
  sf_below k (Prim2SF x).

End Binary64Classes.

(** ** What a call of [getLogFunc] reads and returns *)

Section EvaluatorFacts.

Variable T : Type.
Variable num : arith T.

Lemma getLogFunc_reads (g : namespace T) mean invcov coef point :
  MEAN g = Some mean -> INVCOV g = Some invcov -> MVN_COEF g = Some coef ->
  getLogFunc num point g = (log_density num mean invcov coef point, g).
Proof.
move=> Hm Hi Hc.
rewrite /getLogFunc /log_density /bind /load /of_result /ret Hm.
case: (np_sub num mean point) => [d|e] //=.
rewrite Hc Hi.
case: (np_matmul num invcov d) => [t|e] //=.
by case: (np_dot num d t).
Qed.

(** A call never rebinds a global name. *)
Lemma getLogFunc_namespace (g : namespace T) point :
  (getLogFunc num point g).2 = g.
Proof.
rewrite /getLogFunc /bind /load /of_result /ret.
case: (MEAN g) => [mean|] //=.
case: (np_sub num mean point) => [d|e] //=.
case: (MVN_COEF g) => [c|] //=.
case: (INVCOV g) => [A|] //=.
case: (np_matmul num A d) => [t|e] //=.
by case: (np_dot num d t).
Qed.

Lemma size_np_sub_eq (a b : vector T) :
  size a = size b ->
  np_sub num a b = Ok [seq sub num xy.1 xy.2 | xy <- zip a b].
Proof. by move=> ab; rewrite /np_sub ab eqxx. Qed.

Lemma np_matmul_shape n (A : matrix T) (v : vector T) :
  has_shape n n A -> size v = n ->
  np_matmul num A v = Ok [seq dot_acc num row v | row <- A].
Proof.
move=> /andP [/eqP sA rows] sv; rewrite /np_matmul sv sA rows /=.
by case: n {sA rows sv}.
Qed.

(** With the shapes right, the three numpy calls go through. *)
Lemma log_density_shape n mean invcov coef point :
  size mean = n -> has_shape n n invcov -> size point = n ->
  log_density num mean invcov coef point =
    let normedPoint := [seq sub num xy.1 xy.2 | xy <- zip mean point] in
    Ok (sub num coef (mul num (half num)
          (dot_acc num normedPoint
             [seq dot_acc num row normedPoint | row <- invcov]))).
Proof.
move=> sm shA sp; rewrite /log_density size_np_sub_eq ?sm ?sp //=.
have sd : size [seq sub num xy.1 xy.2 | xy <- zip mean point] = n.
  by rewrite size_map size_zip sm sp minnn.
rewrite (np_matmul_shape shA sd) /= /np_dot sd size_map.
by case/andP: shA => /eqP -> _; rewrite eqxx.
Qed.

End EvaluatorFacts.

(** ** Exact arithmetic: lists of rows against MathComp matrices *)

Section ExactBridge.

Import GRing.Theory.
Local Open Scope ring_scope.

Lemma dot_acc_sum (a b : vector R) :
  dot_acc exact a b = \sum_(xy <- zip a b) xy.1 * xy.2.
Proof.
have acc s x :
    foldl (fun acc xy => add exact acc (mul exact xy.1 xy.2)) x s
    = x + \sum_(xy <- s) xy.1 * xy.2.
  elim: s x => [|h s IH] x /=; first by rewrite big_nil addr0.
  by rewrite IH big_cons addrA.
by rewrite /dot_acc acc add0r.
Qed.

Lemma dot_acc_ord n (a b : vector R) :
  size a = n -> size b = n ->
  dot_acc exact a b = \sum_(i < n) nth 0 a i * nth 0 b i.
Proof.
move=> sa sb.
rewrite dot_acc_sum (big_nth (0, 0)) size_zip sa sb minnn big_mkord.
by apply: eq_bigr => i _; rewrite nth_zip ?sa ?sb.
Qed.

Lemma nth_sub_zip (a b : vector R) n (i : 'I_n) :
  size a = n -> size b = n ->
  nth 0 [seq sub exact xy.1 xy.2 | xy <- zip a b] i = nth 0 a i - nth 0 b i.
Proof.
move=> sa sb.
rewrite (nth_map (0, 0)) ?size_zip ?sa ?sb ?minnn //.
by rewrite nth_zip ?sa ?sb.
Qed.

Lemma quadraticForm_dot n mean invcov point :
  size mean = n -> has_shape n n invcov -> size point = n ->
  let normedPoint := [seq sub exact xy.1 xy.2 | xy <- zip mean point] in
  dot_acc exact normedPoint [seq dot_acc exact row normedPoint | row <- invcov]
  = quadraticForm n mean invcov point.
Proof.
move=> sm /andP [/eqP sA /allP rows] sp d.
have sd : size d = n by rewrite size_map size_zip sm sp minnn.
rewrite (dot_acc_ord sd) ?size_map //.
rewrite /quadraticForm -mulmxA mxE.
apply: eq_bigr => i _; rewrite !mxE nth_sub_zip //; congr (_ * _).
rewrite (nth_map [::]) ?sA //.
have si : size (nth [::] invcov i) = n.
  by apply/eqP/rows/mem_nth; rewrite sA.
rewrite (dot_acc_ord si sd).
by apply: eq_bigr => j _; rewrite !mxE nth_sub_zip.
Qed.

End ExactBridge.

(** ** Exact arithmetic: running the cell *)

Section ExactCellFacts.

Import GRing.Theory.
Local Open Scope ring_scope.

Lemma size_rows_of_mx n (M : 'M[R]_n) : size (rows_of_mx M) = n.
Proof. by rewrite /rows_of_mx size_map size_enum_ord. Qed.

Lemma rows_of_mx_shape n (M : 'M[R]_n) : has_shape n n (rows_of_mx M).
Proof.
rewrite /has_shape size_rows_of_mx eqxx /=.
by apply/allP => row /mapP [i _ ->]; rewrite size_map size_enum_ord.
Qed.

Lemma rows_of_mxK n (M : 'M[R]_n) : mx_of_rows n (rows_of_mx M) = M.
Proof.
apply/matrixP => i j; rewrite mxE /rows_of_mx.
rewrite (nth_map i) ?size_enum_ord // (nth_map j) ?size_enum_ord //.
by rewrite !nth_ord_enum.
Qed.

Lemma has_shape_size n m (A : matrix R) : has_shape n m A -> size A = n.
Proof. by case/andP => /eqP. Qed.

Lemma has_shape_square n (A : matrix R) : has_shape n n A -> is_square A.
Proof. by move=> sh; rewrite /is_square (has_shape_size sh). Qed.

Lemma linalg_det_shape n (A : matrix R) :
  has_shape n n A -> linalg_det A = Ok (\det (mx_of_rows n A)).
Proof.
by move=> sh; rewrite /linalg_det (has_shape_square sh) (has_shape_size sh).
Qed.

Lemma linalg_inv_shape n (A : matrix R) :
  has_shape n n A -> \det (mx_of_rows n A) != 0 ->
  linalg_inv A = Ok (rows_of_mx (invmx (mx_of_rows n A))).
Proof.
move=> sh d0; rewrite /linalg_inv (has_shape_square sh) (has_shape_size sh).
by rewrite (negPf d0).
Qed.

Lemma linalg_inv_singular n (A : matrix R) :
  has_shape n n A -> \det (mx_of_rows n A) = 0 ->
  linalg_inv A = Raise LinAlgError.
Proof.
move=> sh d0; rewrite /linalg_inv (has_shape_square sh) (has_shape_size sh).
by rewrite d0 eqxx.
Qed.

(** The cell goes through on an invertible covariance matrix. *)
Lemma cell_invertible ndim mean cov (g : namespace R) :
  has_shape ndim ndim cov -> \det (mx_of_rows ndim cov) != 0 ->
  cell ndim mean cov g =
    (Ok tt,
     Namespace (Some ndim) (Some mean) (Some cov)
       (Some (rows_of_mx (invmx (mx_of_rows ndim cov))))
       (Some (source_coef (invmx (mx_of_rows ndim cov)))) true).
Proof.
move=> sh d0.
rewrite /cell /bind /store_NDIM /store_MEAN /store_COVMAT /load /of_result /=.
rewrite (linalg_inv_shape sh d0) /=.
by rewrite (linalg_det_shape (rows_of_mx_shape _)) /= rows_of_mxK.
Qed.

(** It stops at [np.linalg.inv] on a singular one. *)
Lemma cell_singular ndim mean cov (g : namespace R) :
  has_shape ndim ndim cov -> \det (mx_of_rows ndim cov) = 0 ->
  cell ndim mean cov g =
    (Raise LinAlgError,
     Namespace (Some ndim) (Some mean) (Some cov)
       (INVCOV g) (MVN_COEF g) (getLogFunc_def g)).
Proof.
move=> sh d0.
rewrite /cell /bind /store_NDIM /store_MEAN /store_COVMAT /load /of_result /=.
by rewrite (linalg_inv_singular sh d0).
Qed.

End ExactCellFacts.

(** ** Exact arithmetic: the coefficient in closed form *)

Section Coefficient.

Local Open Scope R_scope.

Lemma ln_sqrt (x : R) : 0 < x -> ln (sqrt x) = ln x / 2.
Proof. by move=> x0; rewrite -(Rpower_sqrt _ x0) ln_Rpower; lra. Qed.

Lemma ln_inv_sqrt (x : R) : 0 < x -> ln (1 / sqrt x) = - (ln x / 2).
Proof.
move=> x0; have s0 : 0 < sqrt x by apply: sqrt_lt_R0.
by rewrite /Rdiv Rmult_1_l (ln_Rinv _ s0) ln_sqrt.
Qed.

Lemma two_pi_pos : 0 < 2 * PI.
Proof. by have := PI_RGT_0; lra. Qed.

Lemma source_coef_closed_form ndim (M : 'M[R]_ndim) :
  0 < (\det M)%R ->
  source_coef (invmx M) =
    - (INR ndim / 2) * ln (2 * PI) - / 2 * ln (\det M)%R.
Proof.
move=> d0; rewrite /source_coef det_inv.
have -> : ((\det M)^-1)%R = / (\det M)%R by [].
have i0 : 0 < / (\det M)%R by apply: Rinv_0_lt_compat.
by rewrite (ln_inv_sqrt two_pi_pos) (ln_sqrt i0) (ln_Rinv _ d0); lra.
Qed.

End Coefficient.

(** ** The stable evaluator in exact arithmetic *)

Section StableExact.

Local Open Scope R_scope.

Lemma getLogFunc_exact (g : namespace R) (n : nat)
    (mean : vector R) (invcov : matrix R) (coef : R) (point : vector R) :
  MEAN g = Some mean -> INVCOV g = Some invcov -> MVN_COEF g = Some coef ->
  size mean = n -> has_shape n n invcov -> size point = n ->
  getLogFunc exact point g =
    (Ok (coef - / 2 * quadraticForm n mean invcov point), g).
Proof.
move=> Hm Hi Hc sm sh sp.
rewrite (getLogFunc_reads exact point Hm Hi Hc).
rewrite (log_density_shape exact coef sm sh sp) /=.
by rewrite (quadraticForm_dot sm sh sp).
Qed.

(** C1: with [MEAN] of length n, [INVCOV] of shape n by n and a point of
    length n, a call of [getLogFunc] returns exactly
    [MVN_COEF - 0.5 * quadraticForm], where
    [quadraticForm = (MEAN - point)^T . INVCOV . (MEAN - point)], and leaves
    the namespace as it was. The evaluator is written over [arith], which
    has a subtraction, a multiplication, an addition and the constant 0.5:
    no exponential and no logarithm is applied on the way. *)
Theorem getLogFunc_log_space (g : namespace R) (n : nat)
    (mean : vector R) (invcov : matrix R) (coef : R) (point : vector R) :
  MEAN g = Some mean -> INVCOV g = Some invcov -> MVN_COEF g = Some coef ->
  size mean = n -> has_shape n n invcov -> size point = n ->
  getLogFunc exact point g =
    (Ok (coef - / 2 * quadraticForm n mean invcov point), g).
Proof.
move=> Hm Hi Hc sm sh sp.
rewrite (getLogFunc_reads exact point Hm Hi Hc).
rewrite (log_density_shape exact coef sm sh sp) /=.
by rewrite (quadraticForm_dot sm sh sp).
Qed.

End StableExact.

(** ** Exact arithmetic: the unit normal configuration *)

Section UnitNormal.

Import GRing.Theory.
Local Open Scope ring_scope.

Lemma size_np_zeros n : size (np_zeros exact n) = n.
Proof. by rewrite /np_zeros size_nseq. Qed.

Lemma nth_np_zeros n i : nth 0 (np_zeros exact n) i = 0.
Proof. by rewrite /np_zeros nth_nseq; case: ifP. Qed.

Lemma np_eye_shape n : has_shape n n (np_eye exact n).
Proof.
rewrite /has_shape /np_eye size_map size_iota eqxx /=.
by apply/allP => row /mapP [i _ ->]; rewrite size_map size_iota.
Qed.

Lemma mx_of_rows_eye n : mx_of_rows n (np_eye exact n) = 1%:M.
Proof.
apply/matrixP => i j; rewrite !mxE /np_eye.
rewrite (nth_map 0%N) ?size_iota // (nth_map 0%N) ?size_iota //.
rewrite !nth_iota // !add0n.
by rewrite -val_eqE /=; case: (_ == _).
Qed.

Lemma det_eye n : \det (mx_of_rows n (np_eye exact n)) = 1.
Proof. by rewrite mx_of_rows_eye det1. Qed.

Lemma zero_matrix_shape n : has_shape n n (zero_matrix n).
Proof.
rewrite /has_shape /zero_matrix size_nseq eqxx /=.
by apply/allP => row /nseqP [-> _]; rewrite size_np_zeros.
Qed.

Lemma det_zero_matrix n : \det (mx_of_rows n.+1 (zero_matrix n.+1)) = 0.
Proof.
have -> : mx_of_rows n.+1 (zero_matrix n.+1) = 0.
  apply/matrixP => i j; rewrite !mxE /zero_matrix nth_nseq ltn_ord.
  exact: nth_np_zeros.
exact: det0.
Qed.

End UnitNormal.

(** ** The precomputed coefficient *)

Section CoefficientClaims.

Local Open Scope R_scope.

(** C2: on a covariance matrix of shape N by N with a positive determinant
    the cell goes through and binds [MVN_COEF] to
    [-(N/2) ln(2 pi) - 0.5 ln(det(covariance))]; the value it computes,
    [N ln(1/sqrt(2 pi)) + ln(sqrt(det(INVCOV)))] with [INVCOV] the inverse
    of the covariance matrix, is equal to that closed form. *)
Theorem MVN_COEF_closed_form (g : namespace R) (ndim : nat)
    (mean : vector R) (cov : matrix R) :
  has_shape ndim ndim cov -> 0 < (\det (mx_of_rows ndim cov))%R ->
  let g' := (cell ndim mean cov g).2 in
  [/\ (cell ndim mean cov g).1 = Ok tt,
      INVCOV g' = Some (rows_of_mx (invmx (mx_of_rows ndim cov))),
      MVN_COEF g' =
        Some (INR ndim * ln (1 / sqrt (2 * PI))
              + ln (sqrt (\det (invmx (mx_of_rows ndim cov)))%R))
    & INR ndim * ln (1 / sqrt (2 * PI))
      + ln (sqrt (\det (invmx (mx_of_rows ndim cov)))%R)
      = - (INR ndim / 2) * ln (2 * PI)
        - / 2 * ln (\det (mx_of_rows ndim cov))%R].
Proof.
move=> sh d0 /=.
have dn0 : (\det (mx_of_rows ndim cov) != 0)%R.
  by apply/eqP => d; move: d0; rewrite d => /Rlt_irrefl.
rewrite (cell_invertible mean g sh dn0) /=; split=> //.
exact: source_coef_closed_form.
Qed.

End CoefficientClaims.

(** ** Sums of squares of reals *)

Section SumOfSquares.

Import GRing.Theory.
Local Open Scope ring_scope.

Lemma sum_sq_ge0 n (f : 'I_n -> R) : (0 <= \sum_(i < n) f i * f i)%Re.
Proof.
elim/big_rec: _ => [|i x _ x0]; first exact: Rle_refl.
by apply: Rplus_le_le_0_compat => //; exact: Rle_0_sqr.
Qed.

Lemma sum_sq_eq0 n (f : 'I_n -> R) :
  \sum_(i < n) f i * f i = 0 -> forall i, f i = 0.
Proof.
elim: n f => [|n IH] f; first by move=> _ [].
rewrite big_ord_recl => s0 i.
have [h0 t0] := Rplus_eq_R0 _ _ (Rle_0_sqr (f ord0))
                  (sum_sq_ge0 (fun j => f (lift ord0 j))) s0.
case: (unliftP ord0 i) => [j ->|->]; first exact: (IH _ t0).
exact: Rsqr_0_uniq.
Qed.

End SumOfSquares.

(** ** The stable evaluator on the unit normal configuration *)

Section UnitNormalEvaluator.

Import GRing.Theory.

Lemma det_pos_neq0 n (M : 'M[R]_n) : (0 < (\det M)%R)%Re -> (\det M != 0)%R.
Proof. by move=> d0; apply/eqP => d; move: d0; rewrite d => /Rlt_irrefl. Qed.

Lemma det_eye_pos n : (0 < (\det (mx_of_rows n (np_eye exact n)))%R)%Re.
Proof. by rewrite det_eye; exact: Rlt_0_1. Qed.

Lemma unit_normal_cell n :
  cell n (np_zeros exact n) (np_eye exact n) fresh =
    (Ok tt,
     Namespace (Some n) (Some (np_zeros exact n)) (Some (np_eye exact n))
       (Some (rows_of_mx (invmx (mx_of_rows n (np_eye exact n)))))
       (Some (source_coef (invmx (mx_of_rows n (np_eye exact n))))) true).
Proof.
exact: (cell_invertible _ _ (np_eye_shape n) (det_pos_neq0 (det_eye_pos n))).
Qed.

Lemma unit_normal_coef n :
  source_coef (invmx (mx_of_rows n (np_eye exact n)))
  = (- (INR n / 2) * ln (2 * PI))%Re.
Proof.
rewrite (source_coef_closed_form (det_eye_pos n)) det_eye.
have -> : ln 1%R = 0%Re by exact: ln_1.
by rewrite /Rminus Rmult_0_r Ropp_0 Rplus_0_r.
Qed.

Lemma unit_normal_quadraticForm n (point : vector R) :
  quadraticForm n (np_zeros exact n)
    (rows_of_mx (invmx (mx_of_rows n (np_eye exact n)))) point
  = (\sum_(i < n) nth 0%Re point i * nth 0%Re point i)%R.
Proof.
rewrite /quadraticForm rows_of_mxK mx_of_rows_eye invmx1 mulmx1 mxE.
apply: eq_bigr => i _; rewrite !mxE nth_np_zeros.
by rewrite !sub0r mulrNN.
Qed.

Lemma unit_normal_getLogFunc n (point : vector R) :
  size point = n ->
  getLogFunc exact point (unit_normal_namespace n) =
    (Ok (- (INR n / 2) * ln (2 * PI)
         - / 2 * (\sum_(i < n) nth 0%Re point i * nth 0%Re point i)%R)%Re,
     unit_normal_namespace n).
Proof.
move=> sp; rewrite /unit_normal_namespace unit_normal_cell /=.
set g := Namespace _ _ _ _ _ _.
rewrite (@getLogFunc_exact g n _ _ _ point erefl erefl erefl) //.
- exact: size_np_zeros.
- exact: rows_of_mx_shape.
- by rewrite unit_normal_coef unit_normal_quadraticForm.
Qed.

End UnitNormalEvaluator.

Section UnitNormalClaims.

Import GRing.Theory.
Local Open Scope R_scope.

Lemma sum_sq_np_zeros n (point : vector R) :
  size point = n ->
  (\sum_(i < n) nth 0%Re point i * nth 0%Re point i)%R = 0
  <-> point = np_zeros exact n.
Proof.
move=> sp; split=> [s0|->]; last first.
  by apply: big1 => i _; rewrite nth_np_zeros; exact: Rmult_0_l.
apply: (@eq_from_nth _ 0); first by rewrite size_np_zeros.
move=> i; rewrite sp => lt_i; rewrite nth_np_zeros.
exact: (sum_sq_eq0 s0 (Ordinal lt_i)).
Qed.

(** C4: on the unit normal configuration of dimension N ([MEAN] the zero
    vector, [COVMAT] the identity; the notebook has N = 4) the stable
    evaluator returns [-(N/2) ln(2 pi)] at the zero vector. *)
Theorem unit_normal_at_mean (n : nat) :
  getLogFunc exact (np_zeros exact n) (unit_normal_namespace n)
  = (Ok (- (INR n / 2) * ln (2 * PI)), unit_normal_namespace n)
  /\ (getLogFunc exact [:: 0; 0; 0; 0] source_namespace).1
     = Ok (- (4 / 2) * ln (2 * PI)).
Proof.
have at0 m : getLogFunc exact (np_zeros exact m) (unit_normal_namespace m)
             = (Ok (- (INR m / 2) * ln (2 * PI)), unit_normal_namespace m).
  rewrite (unit_normal_getLogFunc (size_np_zeros m)).
  have [_ /(_ erefl) ->] := sum_sq_np_zeros (size_np_zeros m).
  by rewrite Rmult_0_r Rminus_0_r.
split; first exact: at0.
have -> : source_namespace = unit_normal_namespace 4 by [].
have -> : [:: 0; 0; 0; 0] = np_zeros exact 4 by [].
by rewrite at0 /=; congr (Ok _); lra.
Qed.

(** On the unit normal configuration ([MEAN] the zero vector, [COVMAT]
    the identity; the notebook has N = 4), in exact arithmetic, the stable
    evaluator is bounded above by [MVN_COEF], with equality exactly when
    the point is the mean; the quadratic form
    [(MEAN - point)^T . INVCOV . (MEAN - point)] is non-negative and zero
    only at the mean. *)
Lemma unit_normal_bound_exact (n : nat) (point : vector R) :
  size point = n ->
  let g := unit_normal_namespace n in
  exists v c : R,
    [/\ (getLogFunc exact point g).1 = Ok v, MVN_COEF g = Some c,
        v <= c & v = c <-> point = np_zeros exact n]
    /\ (forall invcov, INVCOV g = Some invcov ->
          0 <= quadraticForm n (np_zeros exact n) invcov point
          /\ (quadraticForm n (np_zeros exact n) invcov point = 0
               <-> point = np_zeros exact n)).
Proof.
move=> sp /=.
have := sum_sq_ge0 (fun i : 'I_n => nth 0 point i).
have := sum_sq_np_zeros sp.
set S := (\sum_(i < n) nth 0%Re point i * nth 0%Re point i)%R => qz q0.
exists (- (INR n / 2) * ln (2 * PI) - / 2 * S), (- (INR n / 2) * ln (2 * PI)).
split.
  split; first by rewrite unit_normal_getLogFunc.
  - by rewrite /unit_normal_namespace unit_normal_cell /= unit_normal_coef.
  - by lra.
  - by rewrite -qz; split=> h; lra.
rewrite /unit_normal_namespace unit_normal_cell /= => invcov [<-].
by rewrite unit_normal_quadraticForm.
Qed.

End UnitNormalClaims.

(** ** The naive path against the stable one, in exact arithmetic *)

Section NaiveExact.

Import GRing.Theory.
Local Open Scope R_scope.

Lemma quadraticForm_swap n (a b : vector R) (A : matrix R) :
  quadraticForm n a A b = quadraticForm n b A a.
Proof.
rewrite /quadraticForm.
have -> : delta n a b = (- delta n b a)%R.
  by apply/matrixP => i j; rewrite !mxE opprB.
by rewrite mulmxN [((- _)^T)%R]linearN /= !mulNmx opprK.
Qed.

Lemma mvn_pdf_exact n (mean : vector R) (cov : matrix R) (point : vector R) :
  size mean = n -> has_shape n n cov ->
  0 < (\det (mx_of_rows n cov))%R -> size point = n ->
  mvn_pdf (Frozen mean cov) point =
    Ok (Rpower (2 * PI) (- (INR n / 2))
        * Rpower (\det (mx_of_rows n cov))%R (- / 2)
        * exp (- / 2 * quadraticForm n mean
                         (rows_of_mx (invmx (mx_of_rows n cov))) point)).
Proof.
move=> sm sh d0 sp; rewrite /mvn_pdf /=.
rewrite (linalg_inv_shape sh (det_pos_neq0 d0)) /= (linalg_det_shape sh) /=.
rewrite (size_np_sub_eq exact) ?sm ?sp //=.
have sd : size [seq sub exact xy.1 xy.2 | xy <- zip point mean] = n.
  by rewrite size_map size_zip sm sp minnn.
rewrite (np_matmul_shape exact (rows_of_mx_shape _) sd) /=.
rewrite /np_dot sd size_map size_rows_of_mx eqxx /=.
rewrite (quadraticForm_dot sp (rows_of_mx_shape _) sm).
by rewrite (quadraticForm_swap n point mean).
Qed.

Lemma ln_density (a d q : R) :
  0 < d ->
  ln (Rpower (2 * PI) a * Rpower d (- / 2) * exp q)
  = a * ln (2 * PI) - / 2 * ln d + q.
Proof.
move=> d0.
have p1 : 0 < Rpower (2 * PI) a by exact: exp_pos.
have p2 : 0 < Rpower d (- / 2) by exact: exp_pos.
rewrite (ln_mult _ _ (Rmult_lt_0_compat _ _ p1 p2) (exp_pos q)).
rewrite (ln_mult _ _ p1 p2) !ln_Rpower ln_exp.
by lra.
Qed.

Lemma getLogFunc_bad_exact n (mean : vector R) (cov : matrix R)
    (point : vector R) :
  size mean = n -> has_shape n n cov ->
  0 < (\det (mx_of_rows n cov))%R -> size point = n ->
  getLogFunc_bad (Frozen mean cov) point =
    Ok (- (INR n / 2) * ln (2 * PI) - / 2 * ln (\det (mx_of_rows n cov))%R
        - / 2 * quadraticForm n mean
                  (rows_of_mx (invmx (mx_of_rows n cov))) point).
Proof.
move=> sm sh d0 sp.
rewrite /getLogFunc_bad (mvn_pdf_exact sm sh d0 sp) /= (ln_density _ _ d0).
by congr (Ok _); lra.
Qed.

Lemma getLogFunc_cell_exact n (mean : vector R) (cov : matrix R)
    (point : vector R) :
  size mean = n -> has_shape n n cov ->
  0 < (\det (mx_of_rows n cov))%R -> size point = n ->
  (getLogFunc exact point (cell n mean cov fresh).2).1 =
    Ok (- (INR n / 2) * ln (2 * PI) - / 2 * ln (\det (mx_of_rows n cov))%R
        - / 2 * quadraticForm n mean
                  (rows_of_mx (invmx (mx_of_rows n cov))) point).
Proof.
move=> sm sh d0 sp.
rewrite (cell_invertible mean fresh sh (det_pos_neq0 d0)) /=.
set g := Namespace _ _ _ _ _ _.
rewrite (@getLogFunc_exact g n _ _ _ point erefl erefl erefl sm
           (rows_of_mx_shape _) sp) /=.
by rewrite (source_coef_closed_form d0).
Qed.

(** X11: in exact arithmetic, for a covariance matrix of shape n by n with
    a positive determinant and a point of length n, the naive path
    [getLogFunc_bad] (the logarithm of the density
    [normalizationConstant * exp(-0.5 * quadraticForm)]) and the stable
    path [getLogFunc] return the same value. (How far the two are apart in
    binary64 depends on the platform's [exp] and [log] and is not part of
    this development.) *)
Theorem naive_equals_stable (n : nat) (mean : vector R) (cov : matrix R)
    (point : vector R) :
  size mean = n -> has_shape n n cov ->
  0 < (\det (mx_of_rows n cov))%R -> size point = n ->
  exists v : R,
    getLogFunc_bad (Frozen mean cov) point = Ok v
    /\ (getLogFunc exact point (cell n mean cov fresh).2).1 = Ok v.
Proof.
move=> sm sh d0 sp.
exists (- (INR n / 2) * ln (2 * PI) - / 2 * ln (\det (mx_of_rows n cov))%R
        - / 2 * quadraticForm n mean
                  (rows_of_mx (invmx (mx_of_rows n cov))) point).
by rewrite (getLogFunc_bad_exact sm sh d0 sp) (getLogFunc_cell_exact sm sh d0 sp).
Qed.

End NaiveExact.

(** ** Calls on any number type: purity and wrong lengths *)

Section AnyArithmetic.

Variable T : Type.
Variable num : arith T.

(** C9: a call of [getLogFunc] leaves the namespace, and so the stored
    mean, inverse covariance matrix and coefficient, as it found it, and a
    second call with the same point returns the same result. *)
Theorem getLogFunc_idempotent (g : namespace T) (point : vector T) :
  let first := getLogFunc num point g in
  let second := getLogFunc num point first.2 in
  [/\ first.2 = g, second.2 = g, second.1 = first.1
    & [/\ MEAN first.2 = MEAN g, INVCOV first.2 = INVCOV g
        & MVN_COEF first.2 = MVN_COEF g]].
Proof. by rewrite /= !getLogFunc_namespace. Qed.

Lemma log_density_length1 n mean invcov coef point :
  size mean = n -> has_shape n n invcov -> size point = 1 ->
  exists v, log_density num mean invcov coef point = Ok v.
Proof.
move=> sm sh sp.
have [n1|n1] := eqVneq n 1.
  by rewrite (log_density_shape num coef sm sh) ?sp ?n1 //; eexists.
rewrite /log_density /np_sub sm sp (negPf n1) eqxx /=.
set d := [seq _ | x <- mean].
have sd : size d = n by rewrite size_map.
rewrite (np_matmul_shape num sh sd) /= /np_dot sd size_map.
by rewrite (eqP (proj1 (andP sh))) eqxx /=; eexists.
Qed.

Lemma log_density_wrong_length n mean invcov coef point :
  size mean = n -> has_shape n n invcov ->
  size point != n -> size point != 1 ->
  log_density num mean invcov coef point = Raise ValueError.
Proof.
move=> sm sh spn sp1.
rewrite /log_density /np_sub sm eq_sym (negPf spn) (negPf sp1).
have [n1|//] := eqVneq n 1.
rewrite /= /np_matmul size_map.
case/andP: sh => /eqP sA rows; rewrite n1 in sA rows.
case: invcov sA rows => [|row [|? ?]] //= _; rewrite andbT => /eqP ->.
by rewrite eq_sym (negPf sp1).
Qed.

(** C7, as the code has it: there is no length test in [getLogFunc]; the
    numpy operations decide. With [MEAN] of length n and [INVCOV] of shape
    n by n, a point whose length is neither n nor 1 makes the call raise
    numpy's shape error, and no number is returned; a point of length 1 is
    broadcast against [MEAN] and the call returns a number. *)
Theorem getLogFunc_wrong_length (g : namespace T) (n : nat)
    (mean : vector T) (invcov : matrix T) (coef : T) (point : vector T) :
  MEAN g = Some mean -> INVCOV g = Some invcov -> MVN_COEF g = Some coef ->
  size mean = n -> has_shape n n invcov ->
  (size point != n -> size point != 1 ->
     getLogFunc num point g = (Raise ValueError, g))
  /\ (size point = 1 -> exists v, getLogFunc num point g = (Ok v, g)).
Proof.
move=> Hm Hi Hc sm sh; rewrite (getLogFunc_reads num point Hm Hi Hc).
split=> [spn sp1|sp].
  by rewrite (log_density_wrong_length coef sm sh spn sp1).
by have [v ->] := log_density_length1 coef sm sh sp; exists v.
Qed.

End AnyArithmetic.

(** ** Construction on a singular covariance matrix *)

Section Construction.

Local Open Scope R_scope.


(** The all-zeros matrix of any positive size is such a matrix. *)
Lemma zero_covariance_fails (g : namespace R) (n : nat) (mean : vector R) :
  (cell n.+1 mean (zero_matrix n.+1) g).1 = Raise LinAlgError.
Proof.
by rewrite (cell_singular mean g (zero_matrix_shape _) (det_zero_matrix n)).
Qed.


End Construction.

(** ** Far from the mean *)

Section FarExact.

Local Open Scope R_scope.

Lemma exp_double_lower (c x : R) :
  0 <= c -> c < exp x -> c * c < exp (x + x).
Proof. by move=> c0 cx; rewrite exp_plus; apply: Rmult_le_0_lt_compat. Qed.

Lemma exp_2_lower : 7 < exp 2.
Proof.
have e0 : 1 + / 64 < exp (/ 64) by apply: exp_ineq1; lra.
have e1 : 10314 / 10000 < exp (/ 64 + / 64).
  by have := @exp_double_lower (1 + / 64) _ ltac:(lra) e0; lra.
have e2 : 10637 / 10000 < exp (/ 64 + / 64 + (/ 64 + / 64)).
  by have := @exp_double_lower (10314 / 10000) _ ltac:(lra) e1; lra.
have e3 : 11314 / 10000 < exp (/ 8).
  have -> : / 8 = / 64 + / 64 + (/ 64 + / 64)
                  + (/ 64 + / 64 + (/ 64 + / 64)) by lra.
  by have := @exp_double_lower (10637 / 10000) _ ltac:(lra) e2; lra.
have e4 : 128 / 100 < exp (/ 8 + / 8).
  by have := @exp_double_lower (11314 / 10000) _ ltac:(lra) e3; lra.
have e5 : 1638 / 1000 < exp (/ 8 + / 8 + (/ 8 + / 8)).
  by have := @exp_double_lower (128 / 100) _ ltac:(lra) e4; lra.
have e6 : 268 / 100 < exp 1.
  have -> : 1 = / 8 + / 8 + (/ 8 + / 8) + (/ 8 + / 8 + (/ 8 + / 8)) by lra.
  by have := @exp_double_lower (1638 / 1000) _ ltac:(lra) e5; lra.
have -> : 2 = 1 + 1 by lra.
by have := @exp_double_lower (268 / 100) _ ltac:(lra) e6; lra.
Qed.

Lemma exp_3_2_upper : exp (3 / 2) < 6.
Proof.
have h := exp_le_3.
have p := exp_pos (3 / 2).
have e3 : exp (3 / 2) * exp (3 / 2) = exp 1 * exp 1 * exp 1.
  by rewrite -!exp_plus; congr exp; lra.
have p1 := exp_pos 1.
by nra.
Qed.

Lemma PI_upper : PI < 7 / 2.
Proof. by have [_] := PI_ineq 1; rewrite /= /tg_alt /PI_tg /=; lra. Qed.

Lemma ln_two_pi_bounds : 3 / 2 < ln (2 * PI) < 2.
Proof.
have pi3 := PI2_3_2.
have pu := PI_upper.
have p0 : 0 < 2 * PI by lra.
split; apply: exp_lt_inv; rewrite (exp_ln _ p0).
  by have := exp_3_2_upper; lra.
by have := exp_2_lower; lra.
Qed.


Lemma ln_2_lt_1 : ln 2 < 1.
Proof.
have e1 : 1 + 1 < exp 1 by apply: exp_ineq1; lra.
rewrite -[X in _ < X]ln_exp; apply: ln_increasing; lra.
Qed.

Lemma exp_far_tiny : exp (- 200000000) < / 2 ^ 1075.
Proof.
have p2 : 0 < 2 ^ 1075 by apply: pow_lt; lra.
have n1075 : INR 1075 = 1075 by rewrite INR_IZR_INZ.
have l2 := ln_2_lt_1.
have big : ln (2 ^ 1075) < 200000000 by rewrite ln_pow ?n1075; lra.
rewrite exp_Ropp; apply: (Rinv_0_lt_contravar _ _ p2).
by rewrite -(exp_ln _ p2); apply: exp_increasing; exact: big.
Qed.

(** The naive path at the far point, in exact arithmetic: the density whose
    logarithm [getLogFunc_bad] takes is positive and below 2^-1075, half the
    least positive binary64 number. *)
Lemma far_point_density_tiny :
  exists p : R,
    mvn_pdf source_mvn far_point = Ok p /\ 0 < p < / 2 ^ 1075.
Proof.
rewrite (@mvn_pdf_exact 4 (np_zeros exact 4) (np_eye exact 4) far_point
           erefl (np_eye_shape 4) (det_eye_pos 4) erefl).
rewrite unit_normal_quadraticForm det_eye.
eexists; split; first by [].
have -> : Rpower 1%R (- / 2) = 1.
  have -> : 1%R = 1 :> R by [].
  by rewrite /Rpower ln_1 Rmult_0_r exp_0.
have a0 : 0 < Rpower (2 * PI) (- (INR 4 / 2)) by exact: exp_pos.
have a1 : Rpower (2 * PI) (- (INR 4 / 2)) < 1.
  rewrite -exp_0; apply: exp_increasing.
  by have := ln_two_pi_bounds; rewrite /=; lra.
have -> : (\sum_(i < 4) nth 0 far_point i * nth 0 far_point i)%R
          = 400000000.
  rewrite !big_ord_recl big_ord0 /=.
  by rewrite /GRing.add /GRing.mul /GRing.zero /=; lra.
have -> : - / 2 * 400000000 = - 200000000 by lra.
have e0 := exp_pos (- 200000000).
have e1 := exp_far_tiny.
by nra.
Qed.

End FarExact.

(** ** Binary64: rounding on the specification of floats

    What [binary_round_aux], the rounding step shared by the specified
    multiplication, addition and subtraction, does to the magnitude and
    the sign of its argument. *)

Section SpecFloat64.

Import SpecFloat FloatOps FloatAxioms.
Local Open Scope Z_scope.

Notation fexp64 := (fexp prec emax).
Notation digits m := (Zpos (digits2_pos m)).

Lemma digits2_size (p : positive) : digits2_pos p = Pos.size p.
Proof. by elim: p => [p /= ->|p /= ->|]. Qed.

Lemma digits_gt (m : positive) : Zpos m < 2 ^ digits m.
Proof.
rewrite digits2_size; have := Pos.size_gt m.
rewrite -Pos2Z.inj_pow; lia.
Qed.

Lemma digits_le (m : positive) : 2 ^ digits m <= 2 * Zpos m.
Proof.
rewrite digits2_size; have := Pos.size_le m.
rewrite -Pos2Z.inj_pow; lia.
Qed.

(** digits of a positive mantissa below a power of two *)
Lemma digits_bound (m : positive) (k : Z) : Zpos m < 2 ^ k -> digits m <= k.
Proof.
move=> mk; have d := @digits_le m.
have k0 : 0 <= k.
  case: (Z.leb_spec 0 k) => // k0; move: mk; rewrite Z.pow_neg_r //; lia.
have [//|kd] := Z.le_gt_cases (digits m) k.
have : 2 ^ (k + 1) <= 2 ^ digits m by apply: Z.pow_le_mono_r; lia.
rewrite Z.pow_add_r // Z.pow_1_r; lia.
Qed.

Lemma digits_lower (m : positive) (k : Z) : 2 ^ k <= Zpos m -> k + 1 <= digits m.
Proof.
move=> km; have d := @digits_gt m.
have [kd|//] := Z.le_gt_cases (digits m) k; last lia.
have : 2 ^ digits m <= 2 ^ k by apply: Z.pow_le_mono_r; lia.
lia.
Qed.

Lemma shr_1_m mrs : 0 <= shr_m mrs -> shr_m (shr_1 mrs) = shr_m mrs / 2.
Proof.
case: mrs => m r s /= m0; rewrite -Z.div2_div.
by case: m m0 => [|[p|p|]|p] //=; lia.
Qed.

Lemma pow2_xO p : 2 ^ Z.pos p~0 = 2 ^ Z.pos p * 2 ^ Z.pos p.
Proof.
have -> : Z.pos p~0 = Z.pos p + Z.pos p by lia.
by rewrite Z.pow_add_r; lia.
Qed.

Lemma pow2_xI p : 2 ^ Z.pos p~1 = 2 * (2 ^ Z.pos p * 2 ^ Z.pos p).
Proof.
have -> : Z.pos p~1 = 1 + (Z.pos p + Z.pos p) by lia.
by rewrite Z.pow_add_r ?Z.pow_1_r ?Z.pow_add_r; lia.
Qed.

Lemma iter_shr_1_m p mrs :
  0 <= shr_m mrs -> shr_m (iter_pos shr_1 p mrs) = shr_m mrs / 2 ^ Zpos p.
Proof.
elim: p mrs => [p IH|p IH|] mrs m0; rewrite [iter_pos _ _ _]/=.
- have h0 : 0 <= shr_m (shr_1 mrs) by rewrite shr_1_m //; apply: Z.div_pos; lia.
  have h1 : 0 <= shr_m (iter_pos shr_1 p (shr_1 mrs)).
    by rewrite IH //; apply: Z.div_pos; lia.
  rewrite IH // IH // shr_1_m // pow2_xI.
  by rewrite !Z.div_div; try lia; rewrite Z.mul_assoc.
- have h1 : 0 <= shr_m (iter_pos shr_1 p mrs).
    by rewrite IH //; apply: Z.div_pos; lia.
  by rewrite IH // IH // pow2_xO Z.div_div; lia.
- by rewrite shr_1_m.
Qed.

Lemma shr_spec mrs e n :
  0 <= shr_m mrs ->
  shr_m (shr mrs e n).1 = shr_m mrs / 2 ^ Z.max n 0 /\
  (shr mrs e n).2 = e + Z.max n 0.
Proof.
move=> m0; case: n => [|p|p] /=.
- by rewrite Z.div_1_r Z.add_0_r.
- by rewrite iter_shr_1_m // Z.max_l //; lia.
- by rewrite Z.div_1_r Z.add_0_r.
Qed.

Lemma pow2_succ_pos p : 2 ^ (Z.pos p + 1) = 2 * 2 ^ Z.pos p.
Proof. by rewrite Z.pow_add_r ?Z.pow_1_r; lia. Qed.

(** the round bit after a shift by p is bit p - 1 of the mantissa *)
Lemma shr_1_r mrs : 0 <= shr_m mrs -> shr_r (shr_1 mrs) = Z.testbit (shr_m mrs) 0.
Proof. by case: mrs => m r s /=; case: m => [|[p|p|]|p] //=; lia. Qed.

Lemma iter_shr_1_r p mrs :
  0 <= shr_m mrs ->
  shr_r (iter_pos shr_1 p mrs) = Z.testbit (shr_m mrs) (Zpos p - 1).
Proof.
elim: p mrs => [p IH|p IH|] mrs m0; rewrite [iter_pos _ _ _]/=.
- have h0 : 0 <= shr_m (shr_1 mrs) by rewrite shr_1_m //; apply: Z.div_pos; lia.
  have h1 : 0 <= shr_m (iter_pos shr_1 p (shr_1 mrs)).
    by rewrite iter_shr_1_m //; apply: Z.div_pos; lia.
  rewrite IH // iter_shr_1_m // shr_1_m // Z.div_div; try lia.
  have -> : 2 * 2 ^ Z.pos p = 2 ^ (Z.pos p + 1) by rewrite pow2_succ_pos.
  rewrite Z.div_pow2_bits; try lia.
  by congr (Z.testbit _ _); lia.
- have h1 : 0 <= shr_m (iter_pos shr_1 p mrs).
    by rewrite iter_shr_1_m //; apply: Z.div_pos; lia.
  rewrite IH // iter_shr_1_m // Z.div_pow2_bits; try lia.
  by congr (Z.testbit _ _); lia.
- by rewrite shr_1_r.
Qed.

Lemma shr_r_spec mrs e n :
  0 <= shr_m mrs ->
  shr_r (shr mrs e n).1
  = if 0 <? n then Z.testbit (shr_m mrs) (n - 1) else shr_r mrs.
Proof. by move=> m0; case: n => [|p|p] //=; rewrite iter_shr_1_r. Qed.

Lemma round_up_r mrs :
  round_nearest_even (shr_m mrs) (loc_of_shr_record mrs) = shr_m mrs
  \/ (round_nearest_even (shr_m mrs) (loc_of_shr_record mrs) = shr_m mrs + 1
      /\ shr_r mrs = true).
Proof.
case: mrs => m [] [] /=; try by left.
- by right.
- by case: (Z.even m); [left|right].
Qed.

Lemma shr_record_of_loc_m m l : shr_m (shr_record_of_loc m l) = m.
Proof. by case: l => [|[]]. Qed.

Lemma round_nearest_even_bounds m l :
  m <= round_nearest_even m l <= m + 1.
Proof. by rewrite /round_nearest_even; case: l => [|[]] //; try case: (Z.even m); lia. Qed.

Notation bra := (binary_round_aux prec emax).

(** the two right shifts and the rounding step of binary_round_aux, on a
    positive mantissa *)
Lemma binary_round_aux_shape s m e l :
  exists m2 : Z,
    let n1 := Z.max (fexp64 (digits m + e) - e) 0 in
    let n2 := Z.max (fexp64 (Zdigits2 m2 + (e + n1)) - (e + n1)) 0 in
    [/\ Zpos m / 2 ^ n1 <= m2 <= Zpos m / 2 ^ n1 + 1,
        l = loc_Exact ->
        m2 = Zpos m / 2 ^ n1
        \/ [/\ m2 = Zpos m / 2 ^ n1 + 1, 0 < n1
              & Z.testbit (Zpos m) (n1 - 1) = true]
      & bra s (Zpos m) e l =
        match m2 / 2 ^ n2 with
        | Z0 => S754_zero s
        | Zpos p => if e + n1 + n2 <=? emax - prec
                    then S754_finite s p (e + n1 + n2) else S754_infinity s
        | Zneg _ => S754_nan
        end].
Proof.
rewrite /binary_round_aux /shr_fexp [Zdigits2 (Zpos m)]/Zdigits2.
set n := fexp64 (digits m + e) - e.
set r0 := shr_record_of_loc (Zpos m) l.
have r0m : shr_m r0 = Zpos m by rewrite shr_record_of_loc_m.
have r00 : 0 <= shr_m r0 by rewrite r0m.
have := @shr_r_spec r0 e n r00; have := @shr_spec r0 e n r00.
case: (shr r0 e n) => [mrs1 e1]; cbv [fst snd] => -[m1E e1E] r1E.
set m2 := round_nearest_even _ _.
have m2b : shr_m mrs1 <= m2 <= shr_m mrs1 + 1 by apply: round_nearest_even_bounds.
have m10 : 0 <= shr_m mrs1 by rewrite m1E; apply: Z.div_pos; lia.
set r2 := shr_record_of_loc m2 loc_Exact.
have r2m : shr_m r2 = m2 by [].
have r20 : 0 <= shr_m r2 by rewrite r2m; lia.
have := @shr_spec r2 e1 (fexp64 (Zdigits2 m2 + e1) - e1) r20.
case: (shr r2 e1 _) => [mrs3 e3]; cbv [fst snd] => -[m3E e3E].
exists m2; cbv zeta; split.
- by rewrite -r0m -m1E.
- move=> lE; rewrite -r0m -m1E /m2.
  have [->|[-> r1]] := round_up_r mrs1; [by left|right].
  move: r1E; rewrite r1.
  case: (Z.ltb_spec 0 n) => [n0 r1E|_]; last by rewrite /r0 lE.
  have nE : Z.max n 0 = n by lia.
  by rewrite nE; split.
- by rewrite m3E e3E e1E r2m.
Qed.




Lemma binary_round_aux_signed s m e l : sf_signed s (bra s (Zpos m) e l).
Proof.
have [m2] := binary_round_aux_shape s m e l; cbv zeta => -[[m2l _] _ ->].
have m20 : 0 <= m2.
  by apply: Z.le_trans m2l; apply: Z.div_pos => //; apply: Z.pow_pos_nonneg; lia.
set n2 := Z.max _ 0.
have : 0 <= m2 / 2 ^ n2.
  by apply: Z.div_pos => //; apply: Z.pow_pos_nonneg; lia.
case: (m2 / 2 ^ n2) => [|p|p] h; cbv iota; [by []| |by lia].
by case: (_ <=? _); rewrite /sf_signed Bool.eqb_reflx.
Qed.


Lemma iter_xO (m d : positive) : Zpos (Pos.iter xO m d) = Zpos m * 2 ^ Zpos d.
Proof.
by rewrite -(Z.shiftl_mul_pow2 (Zpos m) (Zpos d)) // -(@Zpower.shift_equiv (Zpos d) m).
Qed.

Lemma shl_align_spec m e e' :
  (shl_align m e e').2 = Z.min e e' /\
  Zpos (shl_align m e e').1 = Zpos m * 2 ^ (e - Z.min e e').
Proof.
rewrite /shl_align; case E: (e' - e) => [|d|d]; cbv [fst snd].
- have -> : Z.min e e' = e by lia.
  by rewrite Z.sub_diag Z.mul_1_r.
- have -> : Z.min e e' = e by lia.
  by rewrite Z.sub_diag Z.mul_1_r.
- have -> : Z.min e e' = e' by lia.
  by rewrite iter_xO; have -> : e - e' = Zpos d by lia.
Qed.


Notation bround := (binary_round prec emax).

Lemma binary_round_signed s m e : sf_signed s (bround s m e).
Proof.
rewrite /binary_round; case: (shl_align _ _ _) => mz ez.
exact: binary_round_aux_signed.
Qed.


Notation valid := valid_binary.






Lemma pow2_succ k : 0 <= k -> 2 ^ (k + 1) = 2 * 2 ^ k.
Proof. by move=> k0; rewrite Z.pow_add_r // Z.pow_1_r Z.mul_comm. Qed.



Lemma binary_round_exact s m e :
  e <= fexp64 (digits m + e) -> bround s m e = bra s (Zpos m) e loc_Exact.
Proof.
move=> h; rewrite /binary_round /shl_align.
by case E: (_ - e) => [|d|d] //; lia.
Qed.

(** rounding does not go below a representable number: a sum that is at
    least the normal number [mc * 2^ec] rounds to a number of exponent
    above [ec], or of exponent [ec] and mantissa at least [mc] *)
Lemma binary_round_lower s M ez mc ec :
  digits mc = prec -> emin <= ec -> ez <= ec ->
  Zpos mc * 2 ^ (ec - ez) <= Zpos M ->
  match bround s M ez with
  | S754_infinity s' => s' = s
  | S754_finite s' m' e' => s' = s /\ (ec < e' \/ (e' = ec /\ Zpos mc <= Zpos m'))
  | _ => False
  end.
Proof.
move=> dc ecmin ezec cM; have precE : prec = 53 by [].
have mcl := @digits_le mc; have Ml := @digits_le M; have Mu := @digits_gt M.
have p0 : 0 < 2 ^ (ec - ez) by apply: Z.pow_pos_nonneg; lia.
have dM : prec + (ec - ez) <= digits M.
  have -> : prec + (ec - ez) = (prec - 1 + (ec - ez)) + 1 by lia.
  apply: digits_lower; rewrite Z.pow_add_r; try lia.
  by move: mcl; rewrite dc /prec; change (2 ^ 53) with (2 * 2 ^ (53 - 1)); nia.
have EE : fexp64 (digits M + ez) = digits M + ez - prec.
  by rewrite /fexp; move: ecmin; rewrite /SpecFloat.emin; lia.
rewrite binary_round_exact; first by rewrite EE; lia.
have [m2] := binary_round_aux_shape s M ez loc_Exact; cbv zeta.
rewrite EE; have -> : Z.max (digits M + ez - prec - ez) 0 = digits M - prec by lia.
set n1 := digits M - prec; have n10 : 0 <= n1 by rewrite /n1; lia.
have -> : ez + n1 = digits M + ez - prec by rewrite /n1; lia.
set E := digits M + ez - prec; move=> [[m2l m2u] _ ->].
have q0 : 0 < 2 ^ n1 by apply: Z.pow_pos_nonneg.
have M2 : 2 ^ digits M = 2 ^ prec * 2 ^ n1.
  by rewrite -Z.pow_add_r; try lia; congr (2 ^ _); rewrite /n1; lia.
have m1l : 2 ^ (prec - 1) <= Zpos M / 2 ^ n1.
  apply: Z.div_le_lower_bound => //.
  by move: M2 Ml; rewrite /prec; change (2 ^ 53) with (2 * 2 ^ (53 - 1)); nia.
have m1u : Zpos M / 2 ^ n1 < 2 ^ prec.
  by apply: Z.div_lt_upper_bound => //; lia.
have m1c : ec = E -> Zpos mc <= Zpos M / 2 ^ n1.
  move=> ecE; apply: Z.div_le_lower_bound => //.
  have <- : ec - ez = n1 by rewrite /n1; move: ecE; rewrite /E; lia.
  by rewrite Z.mul_comm.
case Em2 : m2 m2l m2u => [|p2|p2] m2l m2u;
  [move: m1l m2l; rewrite /prec; lia| |move: m1l m2l; rewrite /prec; lia].
have d2l : prec <= digits p2.
  have -> : prec = (prec - 1) + 1 by lia.
  by apply: digits_lower; lia.
have d2u : digits p2 <= prec + 1.
  by apply: digits_bound; rewrite pow2_succ; lia.
rewrite /Zdigits2.
have -> : Z.max (fexp64 (digits p2 + E) - E) 0 = digits p2 - prec.
  by rewrite /fexp; move: ecmin dM; rewrite /E /SpecFloat.emin; lia.
have p2l := @digits_le p2.
have n20 : 0 <= digits p2 - prec by lia.
have r0 : 0 < 2 ^ (digits p2 - prec) by apply: Z.pow_pos_nonneg.
have P2 : 2 ^ digits p2 = 2 ^ prec * 2 ^ (digits p2 - prec).
  by rewrite -Z.pow_add_r; try lia; congr (2 ^ _); lia.
have m3l : 1 <= Zpos p2 / 2 ^ (digits p2 - prec).
  apply: Z.div_le_lower_bound => //.
  by move: P2 p2l; rewrite /prec; change (2 ^ 53) with (2 * 2 ^ (53 - 1)); nia.
case E3 : (Zpos p2 / 2 ^ (digits p2 - prec)) m3l => [|p3|p3] // _.
case: (_ <=? _) => //; split=> //.
have ecE' : ec = E \/ ec < E by rewrite /E; lia.
case: ecE' => ecE; last by left; lia.
have [d53|d53] : digits p2 = prec \/ digits p2 = prec + 1 by lia.
  right; move: E3; rewrite d53 Z.sub_diag Z.pow_0_r Z.div_1_r => -[<-].
  by split; [lia|have := m1c ecE; lia].
by left; lia.
Qed.


Lemma SFcompare_refl s m e :
  SFcompare (S754_finite s m e) (S754_finite s m e) = Some Eq.
Proof.
by rewrite /SFcompare Z.compare_refl Pos.compare_cont_refl; case: s.
Qed.

(** subtracting a non-negative number from a negative normal number does
    not increase it *)
Lemma SFsub_nonneg_le mc ec h :
  digits mc = prec -> emin <= ec -> sf_signed false h ->
  SFleb (SFsub prec emax (S754_finite true mc ec) h) (S754_finite true mc ec).
Proof.
move=> dc ecmin; case: h => [s|[]| |[] m e] // _.
- by rewrite /SFsub /SFleb SFcompare_refl.
- rewrite /SFsub /cond_Zopp.
  set ez := Z.min ec e.
  have [_ aE] := shl_align_spec mc ec ez.
  have ezE : Z.min ec ez = ez by rewrite /ez; lia.
  rewrite ezE in aE.
  set a := (shl_align mc ec ez).1 in aE *; set b := (shl_align m e ez).1.
  have -> : - Zpos a - Zpos b = Zneg (a + b) by [].
  rewrite /binary_normalize.
  have := @binary_round_lower true (a + b) ez mc ec dc ecmin.
  have ezec : ez <= ec by rewrite /ez; lia.
  move=> /(_ ezec); rewrite -aE => /(_ ltac:(lia)).
  case: (bround _ _ _) => [s'|s'| |s' m' e'] //; first by move=> ->.
  move=> [-> h]; rewrite /SFleb /SFcompare.
  case: h => [lt|[-> le]].
    by have -> : (e' ?= ec) = Gt by apply/Z.compare_gt_iff.
  rewrite Z.compare_refl.
  have : (Zpos mc <= Zpos m') by [].
  change (Pos.compare_cont Eq m' mc) with (Pos.compare m' mc).
  by case: (Pos.compare_spec m' mc) => //=; lia.
Qed.

Lemma SFadd_nonneg x y :
  sf_signed false x -> sf_signed false y -> sf_signed false (SFadd prec emax x y).
Proof.
case: x => [sx|[]| |[] mx ex] //; case: y => [sy|[]| |[] my ey] // _ _.
- by case: sx; case: sy.
- rewrite /SFadd /cond_Zopp.
  set a := (shl_align mx _ _).1; set b := (shl_align my _ _).1.
  have -> : Zpos a + Zpos b = Zpos (a + b) by [].
  exact: binary_round_signed.
Qed.

Lemma SFmul_like x t :
  sf_fin x -> sf_like x t -> sf_signed false (SFmul prec emax x t).
Proof.
case: x => [sx|sx| |sx mx ex] // _; case: t => [st|st| |st mt et] //=.
- by move/Bool.eqb_prop => <-; case: sx.
- move/Bool.eqb_prop => <-; have -> : xorb sx sx = false by case: sx.
  exact: binary_round_aux_signed.
Qed.

Lemma SFmul_zero_l s x : sf_fin x -> sf_zero (SFmul prec emax (S754_zero s) x).
Proof. by case: x. Qed.

Lemma SFmul_pos_l m e x :
  sf_fin x -> sf_like x (SFmul prec emax (S754_finite false m e) x).
Proof.
case: x => [sx|sx| |sx mx ex] // _; rewrite /SFmul /sf_like.
exact: binary_round_aux_signed.
Qed.

Lemma SFmul_pos_nonneg m e x :
  sf_signed false x -> sf_signed false (SFmul prec emax (S754_finite false m e) x).
Proof.
case: x => [sx|[]| |[] mx ex] // _; rewrite /SFmul.
exact: binary_round_aux_signed.
Qed.

Lemma SFadd_zero_zero a b : sf_zero a -> sf_zero b -> sf_zero (SFadd prec emax a b).
Proof. by case: a => [[]|?| |? ? ?] //; case: b => [[]|?| |? ? ?]. Qed.

Lemma SFadd_zero_like x a t :
  sf_zero a -> sf_like x t -> sf_like x (SFadd prec emax a t).
Proof.
case: a => [sa|?| |? ? ?] // _; case: x => [sx|sx| |sx mx ex] //;
  by case: t => [st|st| |st mt et] //; case: sa; case: st.
Qed.

Lemma SFadd_like_zero x t b :
  sf_like x t -> sf_zero b -> sf_like x (SFadd prec emax t b).
Proof.
case: b => [sb|?| |? ? ?] // + _; case: x => [sx|sx| |sx mx ex] //;
  by case: t => [st|st| |st mt et] //; case: sb; case: st.
Qed.

Lemma SFsub_zero_fin s x : sf_fin x -> sf_fin (SFsub prec emax (S754_zero s) x).
Proof. by case: x => [sx|sx| |sx mx ex] //; case: s; case: sx. Qed.

Lemma SFleb_zero_nonneg s x : sf_signed false x -> SFleb (S754_zero s) x.
Proof. by case: x => [sx|[]| |[] mx ex]. Qed.








End SpecFloat64.

(** ** Binary64: the evaluator on inputs of bounded magnitude *)

Section Binary64Lift.

Import SpecFloat FloatOps FloatAxioms Float64.
Local Open Scope Z_scope.

Lemma is_finite_fin x : PrimFloat.is_finite x = sf_fin (Prim2SF x).
Proof.
rewrite /PrimFloat.is_finite /PrimFloat.is_nan /PrimFloat.is_infinity.
rewrite !eqb_spec abs_spec.
have -> : Prim2SF PrimFloat.infinity = S754_infinity false by vm_compute.
case: (Prim2SF x) => [s|s| |s m e] //=; first by case: s.
by rewrite /SFeqb SFcompare_refl.
Qed.











Lemma below_zero k : below k (zero binary64).
Proof. by []. Qed.

Lemma below_half : below 0 (half binary64).
Proof. by vm_compute. Qed.




End Binary64Lift.

(** ** Binary64: signs in the notebook's configuration *)

Section Binary64Signs.

Import PrimFloat SpecFloat FloatOps FloatAxioms Float64 Float64Source.

Notation SF := Prim2SF.

Lemma f64_zero : sf_zero (SF 0%float).
Proof. by []. Qed.

Lemma f64_sub_zero_fin x : sf_fin (SF x) -> sf_fin (SF (PrimFloat.sub 0%float x)).
Proof. by rewrite sub_spec; apply: SFsub_zero_fin. Qed.

Lemma f64_mul_zero x : sf_fin (SF x) -> sf_zero (SF (PrimFloat.mul 0%float x)).
Proof. by rewrite mul_spec; apply: SFmul_zero_l. Qed.

Lemma f64_mul_one x : sf_fin (SF x) -> sf_like (SF x) (SF (PrimFloat.mul 1%float x)).
Proof. by rewrite mul_spec; apply: SFmul_pos_l. Qed.

Lemma f64_add_zero_zero a b :
  sf_zero (SF a) -> sf_zero (SF b) -> sf_zero (SF (PrimFloat.add a b)).
Proof. by rewrite add_spec; apply: SFadd_zero_zero. Qed.

Lemma f64_add_zero_like x a t :
  sf_zero (SF a) -> sf_like (SF x) (SF t) -> sf_like (SF x) (SF (PrimFloat.add a t)).
Proof. by rewrite add_spec; apply: SFadd_zero_like. Qed.

Lemma f64_add_like_zero x t b :
  sf_like (SF x) (SF t) -> sf_zero (SF b) -> sf_like (SF x) (SF (PrimFloat.add t b)).
Proof. by rewrite add_spec; apply: SFadd_like_zero. Qed.

Lemma f64_mul_like x t :
  sf_fin (SF x) -> sf_like (SF x) (SF t) -> sf_signed false (SF (PrimFloat.mul x t)).
Proof. by rewrite mul_spec; apply: SFmul_like. Qed.

Lemma f64_add_nonneg a b :
  sf_signed false (SF a) -> sf_signed false (SF b) ->
  sf_signed false (SF (PrimFloat.add a b)).
Proof. by rewrite add_spec; apply: SFadd_nonneg. Qed.

Lemma f64_zero_nonneg : sf_signed false (SF 0%float).
Proof. by []. Qed.

Lemma f64_half_nonneg q :
  sf_signed false (SF q) -> sf_signed false (SF (PrimFloat.mul 0.5%float q)).
Proof. by rewrite mul_spec; apply: SFmul_pos_nonneg. Qed.

Lemma f64_sub_coef_le h :
  sf_signed false (SF h) ->
  PrimFloat.leb (PrimFloat.sub (-3.6757541328186907)%float h)
    (-3.6757541328186907)%float = true.
Proof.
move=> hh; rewrite leb_spec sub_spec.
have -> : SF (-3.6757541328186907)%float
          = S754_finite true 8277062471433908 (-51) by vm_compute.
exact: SFsub_nonneg_le.
Qed.

Lemma f64_nonneg_leb q : sf_signed false (SF q) -> PrimFloat.leb 0%float q = true.
Proof. by move=> hq; rewrite leb_spec; apply: SFleb_zero_nonneg. Qed.


Create HintDb f64 discriminated.

#[local] Hint Resolve f64_zero f64_sub_zero_fin f64_mul_zero f64_mul_one
  f64_add_zero_zero f64_add_zero_like f64_add_like_zero f64_mul_like
  f64_add_nonneg f64_zero_nonneg f64_half_nonneg : f64.

Lemma unit_normal_bounded_binary64 (point : vector float) :
  size point = 4%N -> all is_finite point ->
  exists q v : float,
    [/\ (do d <-- np_sub binary64 (np_zeros binary64 4) point;
         do t <-- np_matmul binary64 (np_eye binary64 4) d;
         np_dot binary64 d t) = Ok q,
        (0 <=? q)%float = true,
        call_getLogFunc binary64 point source_namespace64
        = (Ok v, source_namespace64)
      & (v <=? -3.6757541328186907)%float = true].
Proof.
case: point => [|x0 [|x1 [|x2 [|x3 [|? ?]]]]] // _.
rewrite /= !is_finite_fin => /and5P[f0 f1 f2 f3 _].
eexists; eexists; split.
- by cbv -[PrimFloat.add PrimFloat.sub PrimFloat.mul].
- by apply: f64_nonneg_leb; auto 20 with f64.
- by cbv -[PrimFloat.add PrimFloat.sub PrimFloat.mul].
- by apply: f64_sub_coef_le; auto 20 with f64.
Qed.

End Binary64Signs.

(** ** Binary64: the range of the notebook's configuration *)

Section Binary64Source.

Import PrimFloat SpecFloat FloatOps FloatAxioms Float64 Float64Source.
Local Open Scope Z_scope.



End Binary64Source.

Section FarBinary64.

Import PrimFloat Float64 Float64Source.
Local Open Scope R_scope.

(** The model reproduces the value the notebook records for
    [getLogFunc(point = NDIM*[10000])]. *)
Lemma far_point_binary64 :
  getLogFunc binary64 far_point64 source_namespace64
  = (Ok (-200000003.67575413)%float, source_namespace64).
Proof. by vm_compute. Qed.




End FarBinary64.

(** ** The upper bound in binary64 *)

Section UnitNormalBinary64.

Import PrimFloat Float64 Float64Source.
Local Open Scope R_scope.

(** C10, where it fails: in binary64 the bound is attained off the mean.
    The point [[1e-9, 0, 0, 0]] has finite entries and is not the mean,
    and [getLogFunc] returns [MVN_COEF] on it: half its squared distance
    to the mean is below half an ulp of [MVN_COEF]. At [[1e-200, 0, 0, 0]]
    the quadratic form itself is 0: the square underflows. *)
Lemma bound_attained_off_mean_binary64 :
  [/\ size near_point64 = 4%N /\ all is_finite near_point64,
      all2 eqb near_point64 (np_zeros binary64 4) = false,
      MVN_COEF source_namespace64 = Some (-3.6757541328186907)%float,
      (call_getLogFunc binary64 near_point64 source_namespace64).1
      = Ok (-3.6757541328186907)%float
    & [/\ size tiny_point64 = 4%N /\ all is_finite tiny_point64,
          all2 eqb tiny_point64 (np_zeros binary64 4) = false
        & (do d <-- np_sub binary64 (np_zeros binary64 4) tiny_point64;
           do t <-- np_matmul binary64 (np_eye binary64 4) d;
           np_dot binary64 d t) = Ok 0%float]].
Proof. by split; [split| | | |split; [split| |]]; vm_compute. Qed.

(** C10, as the code has it. On the notebook's configuration (N = 4, zero
    mean, identity matrix), in binary64, for every point of length 4 with
    finite entries the quadratic form
    [(MEAN - point)^T . INVCOV . (MEAN - point)] is non-negative and the
    stable evaluator returns a number that is at most [MVN_COEF] (minus
    infinity when the quadratic form overflows); at the mean it returns
    [MVN_COEF]. In exact arithmetic, for every dimension N, the value is
    at most [MVN_COEF] with equality exactly when the point is the mean,
    and the quadratic form is non-negative and zero only at the mean. *)
Theorem unit_normal_bounded_by_coef :
  (forall point : vector float,
     size point = 4%N -> all is_finite point ->
     exists q v c : float,
       [/\ (do d <-- np_sub binary64 (np_zeros binary64 4) point;
            do t <-- np_matmul binary64 (np_eye binary64 4) d;
            np_dot binary64 d t) = Ok q,
           (0 <=? q)%float = true,
           call_getLogFunc binary64 point source_namespace64
           = (Ok v, source_namespace64),
           MVN_COEF source_namespace64 = Some c
         & (v <=? c)%float = true])
  /\ (exists c : float,
        MVN_COEF source_namespace64 = Some c
        /\ (call_getLogFunc binary64 (np_zeros binary64 4)
              source_namespace64).1 = Ok c)
  /\ (forall (n : nat) (point : vector R),
        size point = n ->
        let g := unit_normal_namespace n in
        exists v c : R,
          [/\ (getLogFunc exact point g).1 = Ok v, MVN_COEF g = Some c,
              v <= c & v = c <-> point = np_zeros exact n]
          /\ (forall invcov, INVCOV g = Some invcov ->
                0 <= quadraticForm n (np_zeros exact n) invcov point
                /\ (quadraticForm n (np_zeros exact n) invcov point = 0
                     <-> point = np_zeros exact n))).
Proof.
split.
  move=> point sp fp.
  have [q [v [eq q0 ev le]]] := unit_normal_bounded_binary64 sp fp.
  by exists q, v, (-3.6757541328186907)%float; split.
split; first by exists (-3.6757541328186907)%float; split; vm_compute.
exact: unit_normal_bound_exact.
Qed.

Lemma unit_normal_bounded_by_coef_witness :
  exists q v c : float,
    [/\ (do d <-- np_sub binary64 (np_zeros binary64 4) far_point64;
         do t <-- np_matmul binary64 (np_eye binary64 4) d;
         np_dot binary64 d t) = Ok q,
        (0 <=? q)%float = true,
        call_getLogFunc binary64 far_point64 source_namespace64
        = (Ok v, source_namespace64),
        MVN_COEF source_namespace64 = Some c
      & (v <=? c)%float = true].
Proof.
exact: (proj1 unit_normal_bounded_by_coef far_point64 erefl erefl).
Defined.

End UnitNormalBinary64.

(** ** A point of length 1 *)

Section LengthOne.

Local Open Scope R_scope.

(** C7, where it fails: the notebook's evaluator has dimension 4, the
    point [[1]] has length 1, and the call returns a number: numpy
    stretches the point to [[1, 1, 1, 1]]. *)
Lemma wrong_length_returns_number :
  [/\ NDIM source_namespace = Some 4%N,
      size [:: 1] <> 4%N
    & (getLogFunc exact [:: 1] source_namespace).1
      = Ok (- (4 / 2) * ln (2 * PI) - 2)].
Proof.
have -> : source_namespace = unit_normal_namespace 4 by [].
have same : (getLogFunc exact [:: 1] (unit_normal_namespace 4)).1
            = (getLogFunc exact (nseq 4 1) (unit_normal_namespace 4)).1.
  rewrite /unit_normal_namespace unit_normal_cell /=.
  set g := Namespace _ _ _ _ _ _.
  by rewrite !(@getLogFunc_reads _ exact g _ _ _ _ erefl erefl erefl).
split=> //; first by rewrite /unit_normal_namespace unit_normal_cell.
rewrite same (@unit_normal_getLogFunc 4 (nseq 4 1) erefl) /=.
rewrite !big_ord_recl big_ord0 /=.
by congr (Ok _); rewrite /GRing.add /GRing.mul /GRing.zero /=; lra.
Qed.

End LengthOne.

(** ** The theorems at concrete inputs *)

Section Instances.

Local Open Scope R_scope.

Lemma getLogFunc_log_space_witness :
  getLogFunc exact [:: 0; 1] small_namespace =
    (Ok (5 - / 2 * quadraticForm 2 [:: 1; 2] [:: [:: 2; 0]; [:: 0; 3]]
                     [:: 0; 1]),
     small_namespace).
Proof.
exact: (@getLogFunc_log_space small_namespace 2 [:: 1; 2]
          [:: [:: 2; 0]; [:: 0; 3]] 5 [:: 0; 1]
          erefl erefl erefl erefl erefl erefl).
Defined.

Lemma MVN_COEF_closed_form_witness :
  MVN_COEF source_namespace
  = Some (INR 4 * ln (1 / sqrt (2 * PI))
          + ln (sqrt (\det (invmx (mx_of_rows 4 (np_eye exact 4))))%R))
  /\ INR 4 * ln (1 / sqrt (2 * PI))
     + ln (sqrt (\det (invmx (mx_of_rows 4 (np_eye exact 4))))%R)
     = - (INR 4 / 2) * ln (2 * PI)
       - / 2 * ln (\det (mx_of_rows 4 (np_eye exact 4)))%R.
Proof.
have [_ _ c e] :=
  @MVN_COEF_closed_form fresh 4 (np_zeros exact 4) (np_eye exact 4)
    (np_eye_shape 4) (det_eye_pos 4).
by split.
Defined.

Lemma naive_equals_stable_witness :
  exists v : R,
    getLogFunc_bad source_mvn [:: 1; 2; 3; 4] = Ok v
    /\ (getLogFunc exact [:: 1; 2; 3; 4] source_namespace).1 = Ok v.
Proof.
exact: (@naive_equals_stable 4 (np_zeros exact 4) (np_eye exact 4)
          [:: 1; 2; 3; 4] erefl (np_eye_shape 4) (det_eye_pos 4) erefl).
Defined.

Lemma getLogFunc_wrong_length_witness :
  getLogFunc exact [:: 1; 2; 3] small_namespace
  = (Raise ValueError, small_namespace).
Proof.
exact: (proj1 (@getLogFunc_wrong_length R exact small_namespace 2
                 [:: 1; 2] [:: [:: 2; 0]; [:: 0; 3]] 5 [:: 1; 2; 3]
                 erefl erefl erefl erefl erefl) erefl erefl).
Defined.


End Instances.

(** ** What a call reads, and how numpy stretches its operands *)

Section CallShapes.

Variable T : Type.
Variable num : arith T.

Lemma zip_nseq_r (f : T -> T -> T) (x : T) (s : seq T) :
  [seq f yx.1 yx.2 | yx <- zip s (nseq (size s) x)] = [seq f y x | y <- s].
Proof. by elim: s => [|y s IH] //=; rewrite IH. Qed.

Lemma zip_nseq_l (f : T -> T -> T) (x : T) (s : seq T) :
  [seq f xy.1 xy.2 | xy <- zip (nseq (size s) x) s] = [seq f x y | y <- s].
Proof. by elim: s => [|y s IH] //=; rewrite IH. Qed.

Lemma np_sub_stretch_r (a : vector T) (x : T) :
  np_sub num a [:: x] = np_sub num a (nseq (size a) x).
Proof.
rewrite /np_sub size_nseq eqxx zip_nseq_r /=.
by case: a => [|y [|z a]].
Qed.

Lemma np_sub_stretch_l (x : T) (b : vector T) :
  np_sub num [:: x] b = np_sub num (nseq (size b) x) b.
Proof.
rewrite /np_sub size_nseq eqxx zip_nseq_l /=.
by case: b => [|y [|z b]].
Qed.

(** X1: A point of length 1 stands for the point with that entry in every
    coordinate: the call returns what it returns on the stretched point,
    value or exception, on every number type. *)
Theorem getLogFunc_scalar_point (g : namespace T) (mean : vector T) (x : T) :
  MEAN g = Some mean ->
  getLogFunc num [:: x] g = getLogFunc num (nseq (size mean) x) g.
Proof.
move=> Hm; rewrite /getLogFunc /bind /load Hm /of_result.
by rewrite np_sub_stretch_r.
Qed.

(** X2: The same holds for [MEAN]: a mean of length 1 is stretched to the
    length of the point. *)
Theorem getLogFunc_scalar_mean (g : namespace T) (m : T) (point : vector T) :
  (getLogFunc num point (store_MEAN [:: m] g).2).1
  = (getLogFunc num point (store_MEAN (nseq (size point) m) g).2).1.
Proof.
rewrite /getLogFunc /bind /load /of_result /store_MEAN /=.
rewrite np_sub_stretch_l.
case: (np_sub _ _ _) => [d|e] //=.
case: (MVN_COEF g) => [c|] //=.
case: (INVCOV g) => [A|] //=.
case: (np_matmul num A d) => [t|e] //=.
by case: (np_dot num d t).
Qed.

Lemma np_matmul_wrong_size n (A : matrix T) (d : vector T) :
  has_shape n n A -> size d != n -> np_matmul num A d = Raise ValueError.
Proof.
case/andP => /eqP sA rows dn; rewrite /np_matmul.
case: A sA rows => [|row A] /= sA; first by rewrite -sA in dn; rewrite (negPf dn).
by case/andP => /eqP -> _; rewrite eq_sym (negPf dn).
Qed.

(** X3: When [MEAN] has a length that is neither 1 nor the size of [INVCOV],
    no point is accepted: every call raises numpy's shape error. Nothing
    checks the two against each other before the call. *)
Theorem getLogFunc_mean_mismatch (g : namespace T) (n : nat)
    (mean : vector T) (invcov : matrix T) (coef : T) (point : vector T) :
  MEAN g = Some mean -> INVCOV g = Some invcov -> MVN_COEF g = Some coef ->
  has_shape n n invcov -> size mean != n -> size mean != 1 ->
  getLogFunc num point g = (Raise ValueError, g).
Proof.
move=> Hm Hi Hc sh mn m1; rewrite (getLogFunc_reads num point Hm Hi Hc).
congr (_, _); rewrite /log_density /np_sub (negPf m1).
case: ifP => [/eqP sp|_] /=.
  by rewrite (np_matmul_wrong_size sh) // size_map size_zip -sp minnn.
case: ifP => [_|//] /=.
by rewrite (np_matmul_wrong_size sh) // size_map.
Qed.

End CallShapes.

(** ** Exact arithmetic: the state the cell leaves, and calls on it *)

Section CellState.

Import GRing.Theory.
Local Open Scope R_scope.

(** X5: A run of the cell that goes through rebinds every name: what it leaves
    does not depend on the namespace it started from, and running it a
    second time changes nothing. *)
Theorem cell_rerun (g g' : namespace R) (n : nat) (mean : vector R)
    (cov : matrix R) :
  has_shape n n cov -> 0 < (\det (mx_of_rows n cov))%R ->
  cell n mean cov g = cell n mean cov g'
  /\ (cell n mean cov ;; cell n mean cov) g = cell n mean cov g.
Proof.
move=> sh d0; have dn := det_pos_neq0 d0.
rewrite /bind !(cell_invertible mean g sh dn) (cell_invertible mean g' sh dn).
by rewrite (cell_invertible mean _ sh dn).
Qed.

(** X6: A run of the cell that fails after one that went through leaves a
    mixed state: [MEAN] and [COVMAT] are the new ones, [INVCOV] and
    [MVN_COEF] are still those of the first run, and [getLogFunc] is still
    callable; it returns a number computed from the new mean and the old
    inverse covariance matrix. *)
Theorem stale_after_failed_rerun (n : nat) (mean1 mean2 : vector R)
    (cov1 cov2 : matrix R) (point : vector R) :
  has_shape n n cov1 -> 0 < (\det (mx_of_rows n cov1))%R ->
  has_shape n n cov2 -> (\det (mx_of_rows n cov2))%R = 0 ->
  size mean2 = n -> size point = n ->
  let g1 := (cell n mean1 cov1 fresh).2 in
  let g2 := (cell n mean2 cov2 g1).2 in
  [/\ (cell n mean2 cov2 g1).1 = Raise LinAlgError,
      MEAN g2 = Some mean2 /\ COVMAT g2 = Some cov2,
      INVCOV g2 = INVCOV g1 /\ MVN_COEF g2 = MVN_COEF g1
    & (call_getLogFunc exact point g2).1
      = Ok (- (INR n / 2) * ln (2 * PI)
            - / 2 * ln (\det (mx_of_rows n cov1))%R
            - / 2 * quadraticForm n mean2
                      (rows_of_mx (invmx (mx_of_rows n cov1))) point)].
Proof.
move=> sh1 d1 sh2 d2 sm sp /=.
rewrite (cell_invertible mean1 fresh sh1 (det_pos_neq0 d1)) /=.
rewrite (cell_singular mean2 _ sh2 d2) /=; split=> //.
rewrite /call_getLogFunc /=.
set g := Namespace _ _ _ _ _ _.
rewrite (@getLogFunc_exact g n _ _ _ point erefl erefl erefl sm
           (rows_of_mx_shape _) sp) /=.
by rewrite (source_coef_closed_form d1).
Qed.

End CellState.

(** ** Exact arithmetic: the shape of the log-density *)

Section LogDensityShape.

Import GRing.Theory.
Local Open Scope R_scope.

Lemma size_along (mean point : vector R) (t : R) n :
  size mean = n -> size point = n -> size (along mean point t) = n.
Proof. by move=> sm sp; rewrite /along size_map size_zip sm sp minnn. Qed.

Lemma delta_along n (mean point : vector R) (t : R) :
  size mean = n -> size point = n ->
  delta n mean (along mean point t) = (t *: delta n mean point)%R.
Proof.
move=> sm sp; apply/colP => i; rewrite !mxE /along.
rewrite (nth_map (0, 0)) ?size_zip ?sm ?sp ?minnn // nth_zip ?sm ?sp //=.
have E (s : vector R) : nth 0 s i = (nth 0 s i)%R by [].
rewrite !E; move: (nth _ mean i) (nth _ point i) => a b.
by rewrite /GRing.add /GRing.mul /GRing.opp /=; ring.
Qed.

Lemma quadraticForm_along n (mean : vector R) (invcov : matrix R)
    (point : vector R) (t : R) :
  size mean = n -> size point = n ->
  quadraticForm n mean invcov (along mean point t)
  = t * t * quadraticForm n mean invcov point.
Proof.
move=> sm sp; rewrite /quadraticForm (delta_along t sm sp).
by rewrite linearZ /= [((t *: _)^T)%R]linearZ /= -!scalemxAl scalerA mxE.
Qed.

(** X7: Along a line through the mean the log-density is a parabola: at
    [mean + t * (point - mean)] the call returns
    [MVN_COEF - 0.5 * t^2 * quadraticForm(point)]. At t = -1 this says that
    a point and its mirror image in the mean get the same value. *)
Theorem getLogFunc_along (g : namespace R) (n : nat) (mean : vector R)
    (invcov : matrix R) (coef : R) (point : vector R) (t : R) :
  MEAN g = Some mean -> INVCOV g = Some invcov -> MVN_COEF g = Some coef ->
  size mean = n -> has_shape n n invcov -> size point = n ->
  getLogFunc exact (along mean point t) g
  = (Ok (coef - / 2 * (t * t * quadraticForm n mean invcov point)), g).
Proof.
move=> Hm Hi Hc sm sh sp.
rewrite (getLogFunc_exact Hm Hi Hc sm sh (size_along t sm sp)).
by rewrite quadraticForm_along.
Qed.

(** X8: At the mean the call returns [MVN_COEF] itself, whatever the mean and
    the inverse covariance matrix are. *)
Theorem getLogFunc_at_mean (g : namespace R) (n : nat) (mean : vector R)
    (invcov : matrix R) (coef : R) :
  MEAN g = Some mean -> INVCOV g = Some invcov -> MVN_COEF g = Some coef ->
  size mean = n -> has_shape n n invcov ->
  getLogFunc exact mean g = (Ok coef, g).
Proof.
move=> Hm Hi Hc sm sh; rewrite (getLogFunc_exact Hm Hi Hc sm sh sm).
have -> : quadraticForm n mean invcov mean = 0.
  rewrite /quadraticForm.
  have -> : delta n mean mean = 0%R.
    by apply/colP => i; rewrite !mxE subrr.
  by rewrite mulmx0 mxE.
by rewrite Rmult_0_r Rminus_0_r.
Qed.

(** X9: On the notebook's configuration, in any dimension n, the evaluator is
    the log-density of the standard normal distribution:
    [-(n/2) ln(2 pi) - 0.5 * (sum of the squares of the point's entries)]. *)
Theorem standard_normal_log_density (n : nat) (point : vector R) :
  size point = n ->
  (getLogFunc exact point (unit_normal_namespace n)).1
  = Ok (- (INR n / 2) * ln (2 * PI) - / 2 * (\sum_(x <- point) x * x)%R).
Proof.
move=> sp; rewrite (unit_normal_getLogFunc sp) /=; congr (Ok (_ - _ * _)).
by rewrite [RHS](big_nth 0) sp big_mkord.
Qed.

Lemma rows_of_mx_eye n : rows_of_mx (1%:M : 'M[R]_n) = np_eye exact n.
Proof.
apply: (@eq_from_nth _ [::]).
  by rewrite size_rows_of_mx size_map size_iota.
move=> i; rewrite size_rows_of_mx => lt_i.
rewrite (nth_map (Ordinal lt_i)) ?size_enum_ord // (nth_map 0%N) ?size_iota //.
apply: (@eq_from_nth _ 0); first by rewrite size_map size_enum_ord size_map size_iota.
move=> j; rewrite size_map size_enum_ord => lt_j.
rewrite (nth_map (Ordinal lt_j)) ?size_enum_ord // (nth_map 0%N) ?size_iota //.
rewrite mxE -val_eqE /= !nth_enum_ord // !nth_iota // !add0n.
by case: (_ == _).
Qed.

(** X10: On the notebook's configuration the cell binds [INVCOV] to the identity
    matrix again, and [MVN_COEF] to [NDIM * ln(1 / sqrt(2 pi))]: the
    determinant term vanishes. *)
Theorem unit_normal_state (n : nat) :
  let g := unit_normal_namespace n in
  [/\ MEAN g = Some (np_zeros exact n), INVCOV g = Some (np_eye exact n),
      MVN_COEF g = Some (INR n * ln (1 / sqrt (2 * PI)))
    & getLogFunc_def g = true].
Proof.
rewrite /= /unit_normal_namespace unit_normal_cell /=; split=> //.
  by rewrite mx_of_rows_eye invmx1 rows_of_mx_eye.
rewrite /source_coef mx_of_rows_eye invmx1 det1.
have -> : sqrt 1%R = 1 by exact: sqrt_1.
by rewrite ln_1 Rplus_0_r.
Qed.

End LogDensityShape.

(** ** The further theorems at concrete inputs *)

Section FurtherInstances.

Import GRing.Theory.
Local Open Scope R_scope.

Lemma getLogFunc_scalar_point_witness :
  getLogFunc Float64.binary64 [:: PrimFloat.one]
    Float64Source.source_namespace64
  = getLogFunc Float64.binary64 (nseq 4 PrimFloat.one)
      Float64Source.source_namespace64.
Proof.
exact: (@getLogFunc_scalar_point _ Float64.binary64
          Float64Source.source_namespace64
          (np_zeros Float64.binary64 4) PrimFloat.one erefl).
Defined.

Lemma getLogFunc_mean_mismatch_witness :
  getLogFunc exact [:: 1; 2] mismatched_namespace
  = (Raise ValueError, mismatched_namespace).
Proof.
exact: (@getLogFunc_mean_mismatch R exact mismatched_namespace 2
          [:: 1; 2; 3] [:: [:: 2; 0]; [:: 0; 3]] 5 [:: 1; 2]
          erefl erefl erefl erefl erefl erefl).
Defined.

Lemma cell_rerun_witness :
  source_cell fresh = source_cell small_namespace
  /\ (source_cell ;; source_cell) fresh = source_cell fresh.
Proof.
exact: (@cell_rerun fresh small_namespace 4 (np_zeros exact 4)
          (np_eye exact 4) (np_eye_shape 4) (det_eye_pos 4)).
Defined.

Lemma stale_after_failed_rerun_witness :
  (cell 4 far_point (zero_matrix 4) source_namespace).1 = Raise LinAlgError
  /\ (call_getLogFunc exact (np_zeros exact 4)
        (cell 4 far_point (zero_matrix 4) source_namespace).2).1
     = Ok (- (INR 4 / 2) * ln (2 * PI)
           - / 2 * ln (\det (mx_of_rows 4 (np_eye exact 4)))%R
           - / 2 * quadraticForm 4 far_point
                     (rows_of_mx (invmx (mx_of_rows 4 (np_eye exact 4))))
                     (np_zeros exact 4)).
Proof.
have [e _ _ v] :=
  @stale_after_failed_rerun 4 (np_zeros exact 4) far_point (np_eye exact 4)
    (zero_matrix 4) (np_zeros exact 4) (np_eye_shape 4) (det_eye_pos 4)
    (zero_matrix_shape 4) (det_zero_matrix 3) erefl erefl.
by split.
Defined.

Lemma getLogFunc_along_witness :
  getLogFunc exact (along [:: 1; 2] [:: 0; 1] (-1)) small_namespace
  = (Ok (5 - / 2 * (-1 * -1 * quadraticForm 2 [:: 1; 2]
                                [:: [:: 2; 0]; [:: 0; 3]] [:: 0; 1])),
     small_namespace).
Proof.
exact: (@getLogFunc_along small_namespace 2 [:: 1; 2]
          [:: [:: 2; 0]; [:: 0; 3]] 5 [:: 0; 1] (-1)
          erefl erefl erefl erefl erefl erefl).
Defined.

Lemma getLogFunc_at_mean_witness :
  getLogFunc exact [:: 1; 2] small_namespace = (Ok 5, small_namespace).
Proof.
exact: (@getLogFunc_at_mean small_namespace 2 [:: 1; 2]
          [:: [:: 2; 0]; [:: 0; 3]] 5 erefl erefl erefl erefl erefl).
Defined.

Lemma standard_normal_log_density_witness :
  (getLogFunc exact far_point source_namespace).1
  = Ok (- (INR 4 / 2) * ln (2 * PI) - / 2 * (\sum_(x <- far_point) x * x)%R).
Proof. exact: (@standard_normal_log_density 4 far_point erefl). Defined.

End FurtherInstances.
